(** * A shallow embedding of the staged SQL migration engine of [src/database.py]

    The module keeps a process-wide connection ([_conn]), a data directory
    ([_data_dir]) and a database path ([_db_path]); it discovers numbered step
    directories on the file system, applies their [.sql] files through the
    Python [sqlite3] module and records every applied file in the
    [migration_history] ledger table.

    The model is organised as the source is:
    - strings and paths: [str.split], [str.strip], [os.path.join],
      [os.path.basename], the regular expression [^(\d+)_];
    - the file system as seen through [os.listdir], [os.path.isdir], [glob]
      and [open];
    - the database file: the user schema (tables, views, indexes, triggers),
      on which SQL text is run by an SQL engine given as a parameter, and the
      [migration_history] ledger, with its [UNIQUE] filename column;
    - the [sqlite3] module's implicit transactions: a transaction is opened
      before an INSERT, UPDATE, DELETE or REPLACE statement; any other
      statement run outside a transaction takes effect at once;
    - the module globals, threaded through a state and exception monad. *)

From Stdlib Require Import List String Ascii ZArith Lia Bool.
From Stdlib Require Import Sorting.Sorted Sorting.Permutation.
Import ListNotations.
Open Scope string_scope.
Open Scope list_scope.
Open Scope nat_scope.

(** ** Strings *)

Module Str.

(** Python's [str.isspace] on the code points below 256. *)
Definition is_space (c : ascii) : bool :=
  let n := nat_of_ascii c in
  ((9 <=? n) && (n <=? 13)) || ((28 <=? n) && (n <=? 32)) || (n =? 133) || (n =? 160).

Fixpoint lstrip (s : string) : string :=
  match s with
  | EmptyString => EmptyString
  | String c r => if is_space c then lstrip r else s
  end.

Definition rev_str (s : string) : string :=
  string_of_list_ascii (rev (list_ascii_of_string s)).

(** [str.strip()] *)
Definition strip (s : string) : string := rev_str (lstrip (rev_str (lstrip s))).

(** [s.split(sep)] for a one-character separator. *)
Fixpoint split_on (sep : ascii) (s : string) : list string :=
  match s with
  | EmptyString => [EmptyString]
  | String c r =>
      let parts := split_on sep r in
      if Ascii.eqb c sep then EmptyString :: parts
      else match parts with
           | p :: ps => String c p :: ps
           | [] => [String c EmptyString]
           end
  end.

(** [needle in haystack] *)
Fixpoint contains (needle hay : string) : bool :=
  String.prefix needle hay ||
  match hay with
  | EmptyString => false
  | String _ r => contains needle r
  end.

Fixpoint ends_with (suffix s : string) : bool :=
  String.eqb suffix s ||
  match s with
  | EmptyString => false
  | String _ r => ends_with suffix r
  end.

Definition lower (c : ascii) : ascii :=
  let n := nat_of_ascii c in
  if (65 <=? n) && (n <=? 90) then ascii_of_nat (n + 32) else c.

(** [PyOS_strnicmp(p, word, len(word)) == 0] for a lower-case [word]. *)
Fixpoint iprefix (word s : string) : bool :=
  match word, s with
  | EmptyString, _ => true
  | String w wr, String c r => Ascii.eqb (lower c) w && iprefix wr r
  | String _ _, EmptyString => false
  end.

Definition is_digit (c : ascii) : bool :=
  let n := nat_of_ascii c in (48 <=? n) && (n <=? 57).

(** The longest run of leading digits, and the rest of the string. *)
Fixpoint span_digits (s : string) : string * string :=
  match s with
  | String c r =>
      if is_digit c then let (d, rest) := span_digits r in (String c d, rest)
      else (EmptyString, s)
  | EmptyString => (EmptyString, EmptyString)
  end.

(** [int(digits)] *)
Fixpoint digits_value_acc (acc : Z) (s : string) : Z :=
  match s with
  | EmptyString => acc
  | String c r => digits_value_acc (acc * 10 + Z.of_nat (nat_of_ascii c - 48)) r
  end.

Definition int_of_digits (s : string) : Z := digits_value_acc 0 s.

End Str.

(** ** Paths *)

Module Path.

Definition slash : ascii := "/"%char.

Definition starts_with_slash (s : string) : bool :=
  match s with String c _ => Ascii.eqb c slash | EmptyString => false end.

(** [os.path.join(a, b)] with two arguments (POSIX). *)
Definition join (a b : string) : string :=
  if starts_with_slash b then b
  else if String.eqb a "" || Str.ends_with "/" a then (a ++ b)%string
  else (a ++ "/" ++ b)%string.

(** [os.path.basename(p)]: the part after the last slash. *)
Fixpoint basename (p : string) : string :=
  match p with
  | EmptyString => EmptyString
  | String c r =>
      if Str.contains "/" r then basename r
      else if Ascii.eqb c slash then r else p
  end.

End Path.

(** ** Python's [sorted] on a total order

    [sorted] is stable; on the lists sorted here (tuples and paths drawn from
    one directory listing) no two elements compare equal, so an insertion
    sort on the same order yields the same list. *)

Fixpoint insert_by {A} (le : A -> A -> bool) (x : A) (l : list A) : list A :=
  match l with
  | [] => [x]
  | y :: t => if le x y then x :: y :: t else y :: insert_by le x t
  end.

Fixpoint sorted_by {A} (le : A -> A -> bool) (l : list A) : list A :=
  match l with
  | [] => []
  | x :: t => insert_by le x (sorted_by le t)
  end.

(** Tuple comparison [(a, p) <= (b, q)] as Python does it. *)
Definition pair_leb (x y : Z * string) : bool :=
  (fst x <? fst y)%Z || ((fst x =? fst y)%Z && String.leb (snd x) (snd y)).

(** ** The file system *)

Inductive listing :=
  | LOk (names : list string)   (** [os.listdir] succeeds *)
  | LNotFound                   (** [FileNotFoundError] *)
  | LOSError.                   (** any other [OSError], e.g. not a directory *)

Record fsys := mk_fs {
  fs_listdir : string -> listing;
  fs_isdir : string -> bool;
  fs_read : string -> option string   (** [open(p).read()]; [None] if it raises *)
}.

(** ** The database file *)

Inductive obj_type := OTable | OIndex | OView | OTrigger.

(** A row of [sqlite_master] with the content of the object: [o_tbl] is the
    [tbl_name] column (the table an index or trigger belongs to), [o_refs]
    the tables a table's foreign keys refer to. *)
Record sql_obj := mk_obj {
  o_type : obj_type;
  o_name : string;
  o_tbl : string;
  o_refs : list string;
  o_rows : list (list string)
}.

Inductive sql_error :=
  | OperationalError (msg : string)
  | IntegrityError (msg : string)
  | OtherSqlError (msg : string).

(** The outcome of running one SQL statement on the user schema. *)
Inductive exec_result :=
  | Done (s : list sql_obj)
  | Failed (e : sql_error).

(** An SQL engine: what [cursor.execute(statement)] does to the user schema. *)
Definition engine := list sql_obj -> string -> exec_result.

(** One ledger row: [(filename, dir_prefix)]; the rows are kept in [id]
    order. [history = None] when the [migration_history] table is absent. *)
Definition ledger_row := (string * string)%type.

Record db := mk_db {
  schema : list sql_obj;
  history : option (list ledger_row)
}.

Definition empty_db : db := mk_db [] None.

(** ** Log output and exceptions *)

Inductive exn :=
  | SqlExc (e : sql_error)
  | OSExc (path : string)
  | NoneCursor.   (** [AttributeError] on [None.cursor()] *)

Inductive msg :=
  | MResetDone
  | MWarnExists (e : string) (filename : string)
  | MWarnDuplicate (filename : string) (e : string)
  | MApplied (filename dir_prefix : string)
  | MApplyError (sql_file : string) (e : exn)
  | MBaseNotFound (base_dir : string)
  | MInitStep0 (dir_name : string)
  | MNoStep0Init
  | MNotInitialized
  | MNoDirs (data_dir : string)
  | MAppliedCount (n : nat)
  | MDirCount (dir_name : string) (count total : nat)
  | MStepNotFound (target : Z) (available : list Z)
  | MProcessing (dir_name : string)
  | MSkipping (filename : string)
  | MNoZeroDir
  | MApplyingInitial (dir_name : string)
  | MNoSqlFiles (dir_name : string).

(** ** The module state and its monad

    [w_conn] is [_conn]: [Some p] when a connection to the database file [p]
    is open. [w_tx] is the connection's open transaction, as the working copy
    of the database; [w_disk] maps each database path to its committed
    content (a path never opened is an empty database). *)
Record world := mk_world {
  w_conn : option string;
  w_tx : option db;
  w_data_dir : string;
  w_db_path : string;
  w_disk : string -> db;
  w_out : list msg
}.

Inductive result (A : Type) :=
  | Ok (a : A)
  | Raise (e : exn).
Arguments Ok {A} a.
Arguments Raise {A} e.

Definition M (A : Type) := world -> result A * world.

Definition ret {A} (a : A) : M A := fun w => (Ok a, w).

Definition bind {A B} (c : M A) (k : A -> M B) : M B :=
  fun w => match c w with
           | (Ok a, w') => k a w'
           | (Raise e, w') => (Raise e, w')
           end.

Notation "x <- c ;; k" := (bind c (fun x => k))
  (at level 61, c at next level, right associativity).
Notation "c ;; k" := (bind c (fun _ => k))
  (at level 61, right associativity).

Definition raise {A} (e : exn) : M A := fun w => (Raise e, w).

(** [try: c except Exception as e: h e] *)
Definition try_except {A} (c : M A) (h : exn -> M A) : M A :=
  fun w => match c w with
           | (Ok a, w') => (Ok a, w')
           | (Raise e, w') => h e w'
           end.

Definition get_world : M world := fun w => (Ok w, w).
Definition put_world (w : world) : M unit := fun _ => (Ok tt, w).

(** The state after [print(m)]. *)
Definition logged (w : world) (m : msg) : world :=
  mk_world (w_conn w) (w_tx w) (w_data_dir w) (w_db_path w) (w_disk w) (w_out w ++ [m]).

Definition print (m : msg) : M unit := fun w => (Ok tt, logged w m).

Fixpoint for_each {A} (l : list A) (f : A -> M unit) : M unit :=
  match l with
  | [] => ret tt
  | x :: t => f x ;; for_each t f
  end.

(** Record updates of the module state. *)
Definition with_conn (w : world) (c : option string) (t : option db) : world :=
  mk_world c t (w_data_dir w) (w_db_path w) (w_disk w) (w_out w).

Definition with_disk (w : world) (p : string) (d : db) : world :=
  mk_world (w_conn w) (w_tx w) (w_data_dir w) (w_db_path w)
           (fun q => if String.eqb q p then d else w_disk w q) (w_out w).

Definition with_paths (w : world) (db_path data_dir : string) : world :=
  mk_world (w_conn w) (w_tx w) data_dir db_path (w_disk w) (w_out w).

(** ** Small dictionaries (Python [dict] with insertion order) *)

Fixpoint dict_get {V} (d : list (string * V)) (k : string) : option V :=
  match d with
  | [] => None
  | (k', v) :: t => if String.eqb k k' then Some v else dict_get t k
  end.

(** [d[k] = v]: replaces the value in place, or appends a new key. *)
Fixpoint dict_set {V} (d : list (string * V)) (k : string) (v : V) : list (string * V) :=
  match d with
  | [] => [(k, v)]
  | (k', v') :: t => if String.eqb k k' then (k', v) :: t else (k', v') :: dict_set t k v
  end.

Definition dict_get_default {V} (d : list (string * V)) (k : string) (dflt : V) : V :=
  match dict_get d k with Some v => v | None => dflt end.

(** ** Directory scanner *)

(** [re.compile(r'^(\d+)_').match(item)]: [Some (group(1))] on a match. *)
Definition dir_pattern_match (item : string) : option string :=
  let (d, rest) := Str.span_digits item in
  match d, rest with
  | String _ _, String c _ => if Ascii.eqb c "_"%char then Some d else None
  | _, _ => None
  end.

(** The loop body of [get_all_data_directories], over [os.listdir(base_dir)]. *)
Fixpoint collect_dirs (fs : fsys) (base_dir : string) (items : list string)
    : list (Z * string) :=
  match items with
  | [] => []
  | item :: rest =>
      let item_path := Path.join base_dir item in
      let tail := collect_dirs fs base_dir rest in
      if fs_isdir fs item_path then
        match dir_pattern_match item with
        | Some prefix => (Str.int_of_digits prefix, item_path) :: tail
        | None => tail
        end
      else tail
  end.

Definition get_all_data_directories (fs : fsys) (base_dir : string) : M (list (Z * string)) :=
  match fs_listdir fs base_dir with
  | LOk items => ret (sorted_by pair_leb (collect_dirs fs base_dir items))
  | LNotFound => print (MBaseNotFound base_dir) ;; ret []
  | LOSError => raise (OSExc base_dir)
  end.

(** [glob]'s match of a directory entry against ["*.sql"]: hidden names are
    not matched by the leading [*]. *)
Definition glob_sql_match (name : string) : bool :=
  negb (String.prefix "." name) && Str.ends_with ".sql" name.

(** [sorted(glob.glob(os.path.join(directory, "*.sql")))]; [glob] yields
    nothing for a directory it cannot list. *)
Definition get_sql_files_in_dir (fs : fsys) (directory : string) : list string :=
  match fs_listdir fs directory with
  | LOk names => sorted_by String.leb (map (Path.join directory) (filter glob_sql_match names))
  | _ => []
  end.

(** ** The connection and its implicit transactions *)

(** The database as the connection sees it: the open transaction's working
    copy, or else the committed file. *)
Definition cur_db (w : world) (p : string) : db :=
  match w_tx w with Some d => d | None => w_disk w p end.

Definition conn_path : M string :=
  w <- get_world ;;
  match w_conn w with Some p => ret p | None => raise NoneCursor end.

(** Writing the effect of a statement: into the transaction when one is
    open, straight into the file otherwise. *)
Definition write_db (d : db) : M unit :=
  p <- conn_path ;;
  w <- get_world ;;
  match w_tx w with
  | Some _ => put_world (with_conn w (w_conn w) (Some d))
  | None => put_world (with_disk w p d)
  end.

(** The statements before which [sqlite3] opens a transaction: leading
    blanks skipped, then INSERT, UPDATE, DELETE or REPLACE in any case. *)
Fixpoint is_dml (s : string) : bool :=
  match s with
  | EmptyString => false
  | String c r =>
      if Ascii.eqb c " " || Ascii.eqb c (ascii_of_nat 13) || Ascii.eqb c (ascii_of_nat 10)
         || Ascii.eqb c (ascii_of_nat 9)
      then is_dml r
      else Str.iprefix "insert" s || Str.iprefix "update" s
           || Str.iprefix "delete" s || Str.iprefix "replace" s
  end.

Definition begin_if_needed : M unit :=
  p <- conn_path ;;
  w <- get_world ;;
  match w_tx w with
  | Some _ => ret tt
  | None => put_world (with_conn w (w_conn w) (Some (w_disk w p)))
  end.

(** [cursor.execute(statement)] for a statement on the user schema. *)
Definition cursor_execute (ex : engine) (stmt : string) : M unit :=
  p <- conn_path ;;
  (if is_dml stmt then begin_if_needed else ret tt) ;;
  w <- get_world ;;
  let d := cur_db w p in
  match ex (schema d) stmt with
  | Done s => write_db (mk_db s (history d))
  | Failed e => raise (SqlExc e)
  end.

Definition commit : M unit :=
  p <- conn_path ;;
  w <- get_world ;;
  match w_tx w with
  | Some d => put_world (with_conn (with_disk w p d) (w_conn w) None)
  | None => ret tt
  end.

Definition rollback : M unit :=
  _ <- conn_path ;;
  w <- get_world ;;
  put_world (with_conn w (w_conn w) None).

(** ** The migration ledger *)

Definition no_such_ledger : exn := SqlExc (OperationalError "no such table: migration_history").

(** [CREATE TABLE IF NOT EXISTS migration_history (...)] and [commit()]. *)
Definition setup_migration_tracking : M unit :=
  p <- conn_path ;;
  w <- get_world ;;
  let d := cur_db w p in
  match history d with
  | Some _ => ret tt
  | None => write_db (mk_db (schema d) (Some []))
  end ;;
  commit.

(** [SELECT filename, dir_prefix FROM migration_history ORDER BY id] *)
Definition get_applied_migrations : M (list ledger_row) :=
  p <- conn_path ;;
  w <- get_world ;;
  match history (cur_db w p) with
  | Some rows => ret rows
  | None => raise no_such_ledger
  end.

(** [INSERT INTO migration_history (filename, dir_prefix) VALUES (?, ?)]:
    a DML statement, so a transaction is opened first; the [UNIQUE]
    constraint is on [filename] alone. *)
Definition insert_history (filename dir_prefix : string) : M unit :=
  begin_if_needed ;;
  p <- conn_path ;;
  w <- get_world ;;
  let d := cur_db w p in
  match history d with
  | None => raise no_such_ledger
  | Some rows =>
      if existsb (fun r => String.eqb (fst r) filename) rows
      then raise (SqlExc (IntegrityError "UNIQUE constraint failed: migration_history.filename"))
      else write_db (mk_db (schema d) (Some (rows ++ [(filename, dir_prefix)])))
  end.

(** [SELECT name FROM sqlite_master WHERE type='table'], the ledger first:
    [init] creates it before any step-0 file runs. *)
Definition table_names (d : db) : list string :=
  (match history d with Some _ => ["migration_history"] | None => [] end)
  ++ map o_name (filter (fun o => match o_type o with OTable => true | _ => false end) (schema d)).

Definition drop_table (ex : engine) (table_name : string) : M unit :=
  if String.eqb table_name "migration_history" then
    p <- conn_path ;;
    w <- get_world ;;
    write_db (mk_db (schema (cur_db w p)) None)
  else cursor_execute ex ("DROP TABLE IF EXISTS " ++ table_name ++ ";")%string.

Definition reset_database (ex : engine) : M unit :=
  p <- conn_path ;;
  w <- get_world ;;
  let tables := table_names (cur_db w p) in
  for_each tables (fun table_name =>
    if negb (String.eqb table_name "sqlite_sequence") then drop_table ex table_name
    else ret tt) ;;
  setup_migration_tracking ;;
  commit ;;
  print MResetDone.

(** ** The migration applier *)

(** The [except sqlite3.OperationalError] and [except sqlite3.IntegrityError]
    clauses around one statement. *)
Definition tolerate (filename : string) (e : exn) : M unit :=
  match e with
  | SqlExc (OperationalError m) =>
      if Str.contains "already exists" m then print (MWarnExists m filename) else raise e
  | SqlExc (IntegrityError m) =>
      if Str.contains "UNIQUE constraint failed" m then print (MWarnDuplicate filename m)
      else raise e
  | _ => raise e
  end.

Definition run_statements (ex : engine) (filename : string) (stmts : list string) : M unit :=
  for_each stmts (fun raw =>
    let statement := Str.strip raw in
    if String.eqb statement "" then ret tt
    else try_except (cursor_execute ex statement) (tolerate filename)).

Definition apply_migration (ex : engine) (fs : fsys) (sql_file dir_prefix : string) : M bool :=
  try_except
    (_ <- conn_path ;;
     let filename := Path.basename sql_file in
     match fs_read fs sql_file with
     | None => raise (OSExc sql_file)
     | Some sql_content =>
         run_statements ex filename (Str.split_on ";"%char sql_content) ;;
         insert_history filename dir_prefix ;;
         commit ;;
         print (MApplied filename dir_prefix) ;;
         ret true
     end)
    (fun e => rollback ;; print (MApplyError sql_file e) ;; ret false).

Definition apply_all (ex : engine) (fs : fsys) (sql_files : list string) (dir_name : string) : M unit :=
  for_each sql_files (fun sql_file => _ <- apply_migration ex fs sql_file dir_name ;; ret tt).

(** ** The step controller *)

(** [next((dir_path for prefix, dir_path in data_dirs if prefix == 0), None)] *)
Definition find_step0 (data_dirs : list (Z * string)) : option string :=
  match find (fun x => (fst x =? 0)%Z) data_dirs with
  | Some (_, dir_path) => Some dir_path
  | None => None
  end.

(** [init(db_path, data_dir)]; opening the database is taken to succeed (the
    source exits the process when it does not). *)
Definition init (ex : engine) (fs : fsys) (db_path data_dir : string) : M bool :=
  w <- get_world ;;
  put_world (with_conn (with_paths w db_path data_dir) (Some db_path) None) ;;
  reset_database ex ;;
  data_dirs <- get_all_data_directories fs data_dir ;;
  match find_step0 data_dirs with
  | Some step0_dir =>
      if String.eqb step0_dir "" then print MNoStep0Init
      else
        let dir_name := Path.basename step0_dir in
        print (MInitStep0 dir_name) ;;
        apply_all ex fs (get_sql_files_in_dir fs step0_dir) dir_name
  | None => print MNoStep0Init
  end ;;
  ret true.

Record status_report := mk_report {
  total_applied : nat;
  directories : list (string * (nat * nat))   (** name, (applied, total) *)
}.

(** [dir_counts] of [status]. *)
Definition count_by_dir (applied : list ledger_row) : list (string * nat) :=
  fold_left (fun acc r => dict_set acc (snd r) (dict_get_default acc (snd r) 0 + 1))
            applied [].

Fixpoint status_dirs (fs : fsys) (dir_counts : list (string * nat))
    (data_dirs : list (Z * string)) (acc : list (string * (nat * nat)))
    : M (list (string * (nat * nat))) :=
  match data_dirs with
  | [] => ret acc
  | (_, dir_path) :: rest =>
      let dir_name := Path.basename dir_path in
      let count := dict_get_default dir_counts dir_name 0 in
      let total := List.length (get_sql_files_in_dir fs dir_path) in
      print (MDirCount dir_name count total) ;;
      status_dirs fs dir_counts rest (dict_set acc dir_name (count, total))
  end.

(** [status()]; [None] stands for the [False] it returns on failure. *)
Definition status (fs : fsys) : M (option status_report) :=
  w <- get_world ;;
  match w_conn w with
  | None => print MNotInitialized ;; ret None
  | Some _ =>
      data_dirs <- get_all_data_directories fs (w_data_dir w) ;;
      match data_dirs with
      | [] => print (MNoDirs (w_data_dir w)) ;; ret None
      | _ :: _ =>
          applied_migrations <- get_applied_migrations ;;
          print (MAppliedCount (List.length applied_migrations)) ;;
          let dir_counts := count_by_dir applied_migrations in
          dirs <- status_dirs fs dir_counts data_dirs [] ;;
          ret (Some (mk_report (List.length applied_migrations) dirs))
      end
  end.

(** [applied_files = {filename: dir_prefix for ...}] *)
Definition applied_files_of (applied : list ledger_row) : list (string * string) :=
  fold_left (fun acc r => dict_set acc (fst r) (snd r)) applied [].

(** [filename not in applied_files or applied_files[filename] != dir_name] *)
Definition pending (applied_files : list (string * string)) (filename dir_name : string) : bool :=
  match dict_get applied_files filename with
  | None => true
  | Some d => negb (String.eqb d dir_name)
  end.

Definition set_files (ex : engine) (fs : fsys) (applied_files : list (string * string))
    (dir_name : string) (sql_files : list string) : M unit :=
  for_each sql_files (fun sql_file =>
    let filename := Path.basename sql_file in
    if pending applied_files filename dir_name then
      _ <- apply_migration ex fs sql_file dir_name ;; ret tt
    else print (MSkipping filename)).

(** The [for prefix, dir_path in data_dirs] loop of [set], with its [break]. *)
Fixpoint set_loop (ex : engine) (fs : fsys) (applied_files : list (string * string))
    (target_step : Z) (data_dirs : list (Z * string)) : M unit :=
  match data_dirs with
  | [] => ret tt
  | (prefix, dir_path) :: rest =>
      let dir_name := Path.basename dir_path in
      (if (prefix <=? target_step)%Z then
         print (MProcessing dir_name) ;;
         set_files ex fs applied_files dir_name (get_sql_files_in_dir fs dir_path)
       else ret tt) ;;
      if (prefix =? target_step)%Z then ret tt
      else set_loop ex fs applied_files target_step rest
  end.

Definition set (ex : engine) (fs : fsys) (target_step : Z) : M bool :=
  w <- get_world ;;
  match w_conn w with
  | None => print MNotInitialized ;; ret false
  | Some _ =>
      data_dirs <- get_all_data_directories fs (w_data_dir w) ;;
      match data_dirs with
      | [] => print (MNoDirs (w_data_dir w)) ;; ret false
      | _ :: _ =>
          applied_migrations <- get_applied_migrations ;;
          let applied_files := applied_files_of applied_migrations in
          let available_steps := map fst data_dirs in
          if negb (existsb (Z.eqb target_step) available_steps) then
            print (MStepNotFound target_step available_steps) ;; ret false
          else
            set_loop ex fs applied_files target_step data_dirs ;;
            ret true
      end
  end.

Definition reset (ex : engine) (fs : fsys) : M bool :=
  w <- get_world ;;
  match w_conn w with
  | None => print MNotInitialized ;; ret false
  | Some _ =>
      data_dirs <- get_all_data_directories fs (w_data_dir w) ;;
      match data_dirs with
      | [] => print (MNoDirs (w_data_dir w)) ;; ret false
      | _ :: _ =>
          reset_database ex ;;
          match find_step0 data_dirs with
          | None => print MNoZeroDir ;; ret false
          | Some initial_dir =>
              if String.eqb initial_dir "" then print MNoZeroDir ;; ret false
              else
                let dir_name := Path.basename initial_dir in
                print (MApplyingInitial dir_name) ;;
                match get_sql_files_in_dir fs initial_dir with
                | [] => print (MNoSqlFiles dir_name) ;; ret false
                | sql_files => apply_all ex fs sql_files dir_name ;; ret true
                end
          end
      end
  end.

(** [close()]: closing discards an open transaction. *)
Definition close : M bool :=
  w <- get_world ;;
  match w_conn w with
  | Some _ => put_world (with_conn w None None) ;; ret true
  | None => ret false
  end.

(** * Properties *)

(** ** Sorting *)

Section SortedBy.
Variable A : Type.
Variable le : A -> A -> bool.
Hypothesis le_total : forall x y, le x y = false -> le y x = true.

Lemma insert_by_perm (x : A) (l : list A) : Permutation (insert_by le x l) (x :: l).
Proof.
  induction l as [|y t IH]; simpl; [auto|].
  destruct (le x y); [auto|].
  eapply perm_trans; [apply perm_skip, IH | apply perm_swap].
Qed.

Lemma sorted_by_perm (l : list A) : Permutation (sorted_by le l) l.
Proof.
  induction l as [|x t IH]; simpl; [auto|].
  eapply perm_trans; [apply insert_by_perm | auto].
Qed.

Let R := fun a b => le a b = true.

Lemma insert_by_hdrel (x y : A) (l : list A) :
  le y x = true -> HdRel R y l -> HdRel R y (insert_by le x l).
Proof.
  intros Hyx Hhd. destruct l as [|z t]; simpl; [constructor; exact Hyx|].
  destruct (le x z); constructor; [exact Hyx|]. now inversion Hhd.
Qed.

Lemma insert_by_sorted (x : A) (l : list A) : Sorted R l -> Sorted R (insert_by le x l).
Proof.
  induction l as [|y t IH]; intros Hs; simpl; [repeat constructor|].
  destruct (le x y) eqn:Hxy.
  - constructor; [exact Hs | constructor; exact Hxy].
  - apply Sorted_inv in Hs as [Ht Hhd]. constructor; [now apply IH|].
    apply insert_by_hdrel; [now apply le_total | exact Hhd].
Qed.

Lemma sorted_by_sorted (l : list A) : Sorted R (sorted_by le l).
Proof. induction l; simpl; [constructor | now apply insert_by_sorted]. Qed.

End SortedBy.

Lemma Sorted_weaken {A} (R1 R2 : A -> A -> Prop) (l : list A) :
  (forall x y, R1 x y -> R2 x y) -> Sorted R1 l -> Sorted R2 l.
Proof.
  intros Himp Hs. induction Hs as [|x t Ht IH Hhd]; constructor; [exact IH|].
  destruct Hhd; constructor. now apply Himp.
Qed.

Lemma pair_leb_total (x y : Z * string) : pair_leb x y = false -> pair_leb y x = true.
Proof.
  unfold pair_leb. destruct x as [a p], y as [b q]; simpl. intros H.
  apply orb_false_elim in H as [H1 H2]. apply Z.ltb_ge in H1.
  destruct (Z.eq_dec a b) as [->|Hne].
  - rewrite Z.eqb_refl in H2. simpl in H2. rewrite Z.ltb_irrefl, Z.eqb_refl. simpl.
    destruct (String.leb_total p q) as [Hpq|Hqp]; [congruence | exact Hqp].
  - apply orb_true_intro. left. apply Z.ltb_lt. lia.
Qed.

Lemma pair_leb_fst (x y : Z * string) : pair_leb x y = true -> (fst x <= fst y)%Z.
Proof.
  unfold pair_leb. intros H. apply orb_true_elim in H as [H|H].
  - apply Z.ltb_lt in H. lia.
  - apply andb_prop in H as [H _]. apply Z.eqb_eq in H. lia.
Qed.

(** ** The directory-name pattern *)

Definition all_digits (s : string) : bool :=
  forallb Str.is_digit (list_ascii_of_string s).

Lemma span_digits_app (d r : string) :
  all_digits d = true -> Str.span_digits (d ++ String "_" r) = (d, String "_" r).
Proof.
  induction d as [|c d IH]; simpl; [reflexivity|].
  unfold all_digits; simpl. intros H. apply andb_prop in H as [Hc Hd].
  rewrite Hc, IH by exact Hd. reflexivity.
Qed.

Lemma span_digits_spec (s d r : string) :
  Str.span_digits s = (d, r) -> s = (d ++ r)%string /\ all_digits d = true.
Proof.
  revert d r. induction s as [|c s IH]; simpl; intros d r H.
  - inversion H; subst. split; reflexivity.
  - destruct (Str.is_digit c) eqn:Hc.
    + destruct (Str.span_digits s) as [d' r'] eqn:Hs. inversion H; subst.
      destruct (IH d' r eq_refl) as [-> Hd']. split; [reflexivity|].
      unfold all_digits in *; simpl. now rewrite Hc, Hd'.
    + inversion H; subst. split; reflexivity.
Qed.

(** [^(\d+)_] matches exactly the names made of a non-empty digit run and an
    underscore; the group is that digit run. *)
Lemma dir_pattern_match_spec (item d : string) :
  dir_pattern_match item = Some d <->
  d <> EmptyString /\ all_digits d = true /\ exists rest, item = (d ++ String "_" rest)%string.
Proof.
  unfold dir_pattern_match. split.
  - destruct (Str.span_digits item) as [d0 r0] eqn:Hs.
    apply span_digits_spec in Hs as [-> Hd0].
    destruct d0 as [|c0 d0]; [discriminate|]. destruct r0 as [|u r0]; [discriminate|].
    destruct (Ascii.eqb u "_"%char) eqn:Hu; [|discriminate].
    apply Ascii.eqb_eq in Hu. subst u. intros H. inversion H; subst.
    split; [discriminate|]. split; [exact Hd0|]. exists r0. reflexivity.
  - intros [Hne [Hd [rest ->]]]. rewrite span_digits_app by exact Hd.
    destruct d; [congruence|]. reflexivity.
Qed.

Lemma collect_dirs_In (fs : fsys) (base : string) (items : list string) (n : Z) (p : string) :
  In (n, p) (collect_dirs fs base items) <->
  exists item d, In item items /\ p = Path.join base item /\ fs_isdir fs p = true /\
                 dir_pattern_match item = Some d /\ n = Str.int_of_digits d.
Proof.
  induction items as [|item rest IH]; simpl.
  - split; [tauto|]. intros (i & d & [] & _).
  - destruct (fs_isdir fs (Path.join base item)) eqn:Hdir;
      [destruct (dir_pattern_match item) as [d|] eqn:Hm|]; simpl; rewrite IH.
    + split.
      * intros [H|(i & d' & Hi & Hrest)].
        -- inversion H; subst. exists item, d. tauto.
        -- exists i, d'. tauto.
      * intros (i & d' & [<-|Hi] & -> & Hd & Hm' & ->).
        -- left. rewrite Hm in Hm'. now inversion Hm'.
        -- right. exists i, d'. tauto.
    + split.
      * intros (i & d' & Hi & Hrest). exists i, d'. tauto.
      * intros (i & d' & [<-|Hi] & Hp & Hd & Hm' & Hn); [congruence|]. exists i, d'. tauto.
    + split.
      * intros (i & d' & Hi & Hrest). exists i, d'. tauto.
      * intros (i & d' & [<-|Hi] & -> & Hd & Hm' & Hn); [congruence|].
        exists i, d'. tauto.
Qed.

(** A two-directory listing, for the ordering example of the spec. *)
Definition fs_ordering : fsys :=
  mk_fs (fun p => if String.eqb p "data" then LOk ["10_x"; "2_y"; "notes"] else LNotFound)
        (fun p => String.eqb p "data/10_x" || String.eqb p "data/2_y" || String.eqb p "data/notes")
        (fun _ => None).

Example get_all_data_directories_numeric_order (w : world) :
  get_all_data_directories fs_ordering "data" w = (Ok [(2%Z, "data/2_y"); (10%Z, "data/10_x")], w).
Proof. reflexivity. Qed.

(** ** C8: directory scanning *)

(** C8. [get_all_data_directories base] returns, for a listable base
    directory, exactly the immediate subdirectories whose name is a digit
    run followed by ['_'], paired with the integer of that digit run, in
    ascending order of step number (a permutation of the matches, so nothing
    else and nothing twice); for a base directory that does not exist it logs
    that it was not found and returns the empty list. *)
Theorem get_all_data_directories_scan (fs : fsys) (base : string) (w : world) :
  (forall items, fs_listdir fs base = LOk items ->
   exists dirs,
     get_all_data_directories fs base w = (Ok dirs, w) /\
     Permutation dirs (collect_dirs fs base items) /\
     Sorted (fun x y => (fst x <= fst y)%Z) dirs /\
     (forall n p, In (n, p) dirs <->
        exists item d, In item items /\ p = Path.join base item /\ fs_isdir fs p = true /\
                       d <> EmptyString /\ all_digits d = true /\
                       (exists rest, item = (d ++ String "_" rest)%string) /\
                       n = Str.int_of_digits d)) /\
  (fs_listdir fs base = LNotFound ->
   get_all_data_directories fs base w = (Ok [], logged w (MBaseNotFound base))).
Proof.
  split.
  - intros items Hls. unfold get_all_data_directories. rewrite Hls.
    exists (sorted_by pair_leb (collect_dirs fs base items)).
    split; [reflexivity|]. split; [apply sorted_by_perm|]. split.
    + eapply Sorted_weaken; [|apply sorted_by_sorted, pair_leb_total].
      intros x y. apply pair_leb_fst.
    + intros n p. split.
      * intros Hin. apply (Permutation_in _ (sorted_by_perm _ pair_leb _)) in Hin.
        apply collect_dirs_In in Hin as (i & d & Hi & Hp & Hd & Hm & Hn).
        apply dir_pattern_match_spec in Hm. exists i, d. tauto.
      * intros (i & d & Hi & Hp & Hd & Hne & Hdig & Hrest & Hn).
        apply (Permutation_in _ (Permutation_sym (sorted_by_perm _ pair_leb _))).
        apply collect_dirs_In. exists i, d.
        repeat split; try assumption. now apply dir_pattern_match_spec.
  - intros Hls. unfold get_all_data_directories. rewrite Hls. reflexivity.
Qed.

(** ** Frame lemmas: what leaves the database alone *)

(** Two states agree on the connection, its transaction and the files. *)
Definition same_db (w w' : world) : Prop :=
  w_conn w' = w_conn w /\ w_tx w' = w_tx w /\ w_disk w' = w_disk w.

Lemma same_db_refl (w : world) : same_db w w.
Proof. repeat split. Qed.

Lemma same_db_trans (w1 w2 w3 : world) : same_db w1 w2 -> same_db w2 w3 -> same_db w1 w3.
Proof. intros (A & B & C) (D & E & F). repeat split; congruence. Qed.

Lemma same_db_logged (w : world) (m : msg) : same_db w (logged w m).
Proof. repeat split. Qed.

Lemma get_all_data_directories_frame (fs : fsys) (base : string) (w w1 : world) r :
  get_all_data_directories fs base w = (r, w1) ->
  same_db w w1 /\ w_data_dir w1 = w_data_dir w /\ w_db_path w1 = w_db_path w.
Proof.
  unfold get_all_data_directories, bind, print, ret, raise.
  destruct (fs_listdir fs base); intros H; inversion H; subst; repeat split.
Qed.

Lemma get_applied_migrations_frame (w w1 : world) r :
  get_applied_migrations w = (r, w1) -> w1 = w.
Proof.
  unfold get_applied_migrations, conn_path, bind, get_world, ret, raise.
  destruct (w_conn w); [|intros H; now inversion H].
  destruct (history (cur_db w s)); intros H; now inversion H.
Qed.

(** ** The loop of [set] *)

Lemma set_loop_skip_above (ex : engine) (fs : fsys) af (k s : Z) (p : string) rest :
  (k < s)%Z -> set_loop ex fs af k ((s, p) :: rest) = set_loop ex fs af k rest.
Proof.
  intros Hlt. cbn [set_loop].
  replace (s <=? k)%Z with false by (symmetry; apply Z.leb_gt; lia).
  replace (s =? k)%Z with false by (symmetry; apply Z.eqb_neq; lia).
  reflexivity.
Qed.

Lemma set_loop_stops_at_target (ex : engine) (fs : fsys) af (k : Z) pre (p : string) post :
  ~ In k (map fst pre) ->
  set_loop ex fs af k (pre ++ (k, p) :: post) = set_loop ex fs af k (pre ++ [(k, p)]).
Proof.
  induction pre as [|[s q] pre IH]; intros Hnin; simpl.
  - rewrite Z.eqb_refl. reflexivity.
  - simpl in Hnin. replace (s =? k)%Z with false by (symmetry; apply Z.eqb_neq; tauto).
    rewrite IH by tauto. reflexivity.
Qed.

(** ** C9: unknown step rejection *)

(** C9. [set k] returns [False] and changes nothing but the log when no
    connection is open, when no step directory exists, and when [k] is not a
    discovered step number (it cannot return [True] there; it can only raise
    when the ledger table itself is missing); when it proceeds, directories
    numbered above [k] are skipped and the loop stops after the first
    directory numbered [k], so nothing beyond it is visited. *)
Theorem set_unknown_step_rejected (ex : engine) (fs : fsys) (k : Z) (w : world) :
  (w_conn w = None -> set ex fs k w = (Ok false, logged w MNotInitialized)) /\
  (forall w1, w_conn w <> None ->
     get_all_data_directories fs (w_data_dir w) w = (Ok [], w1) ->
     set ex fs k w = (Ok false, logged w1 (MNoDirs (w_data_dir w)))) /\
  (forall dirs w1, w_conn w <> None ->
     get_all_data_directories fs (w_data_dir w) w = (Ok dirs, w1) ->
     ~ In k (map fst dirs) ->
     exists r w', set ex fs k w = (r, w') /\ r <> Ok true /\ same_db w w' /\
       ((forall p, w_conn w = Some p -> history (cur_db w p) <> None) -> r = Ok false)) /\
  (forall af s p rest, (k < s)%Z ->
     set_loop ex fs af k ((s, p) :: rest) = set_loop ex fs af k rest) /\
  (forall af pre p post, ~ In k (map fst pre) ->
     set_loop ex fs af k (pre ++ (k, p) :: post) = set_loop ex fs af k (pre ++ [(k, p)])).
Proof.
  split; [|split; [|split; [|split]]].
  - intros Hc. unfold set, bind, get_world. rewrite Hc. reflexivity.
  - intros w1 Hc Hget. unfold set, bind, get_world.
    destruct (w_conn w) as [p|]; [|congruence].
    rewrite Hget. reflexivity.
  - intros dirs w1 Hc Hget Hnin.
    destruct (get_all_data_directories_frame _ _ _ _ _ Hget) as [Hs1 _].
    unfold set. unfold bind at 1, get_world.
    destruct (w_conn w) as [p|] eqn:Hcw; [|congruence].
    unfold bind at 1. rewrite Hget.
    destruct dirs as [|d0 ds].
    + eexists; eexists. split; [reflexivity|]. split; [discriminate|].
      split; [exact (same_db_trans _ _ _ Hs1 (same_db_logged _ _))|]. reflexivity.
    + unfold bind at 1.
      destruct (get_applied_migrations w1) as [r2 w2] eqn:Hga.
      pose proof (get_applied_migrations_frame _ _ _ Hga) as ->.
      destruct r2 as [applied|e].
      * assert (Hx : existsb (Z.eqb k) (map fst (d0 :: ds)) = false).
        { apply Bool.not_true_iff_false. intros Hex. apply existsb_exists in Hex as (x & Hx & Hkx).
          apply Z.eqb_eq in Hkx. subst x. contradiction. }
        rewrite Hx. simpl. eexists; eexists. split; [reflexivity|].
        split; [discriminate|]. split; [|reflexivity].
        exact (same_db_trans _ _ _ Hs1 (same_db_logged _ _)).
      * eexists; eexists. split; [reflexivity|]. split; [discriminate|]. split; [exact Hs1|].
        intros Hhist. exfalso.
        destruct Hs1 as (Hc1 & Ht1 & Hd1).
        unfold get_applied_migrations, conn_path, bind, get_world, ret, raise in Hga.
        rewrite Hc1, Hcw in Hga. unfold cur_db in Hga. rewrite Ht1, Hd1 in Hga.
        specialize (Hhist p eq_refl). unfold cur_db in Hhist.
        destruct (history _); [discriminate | congruence].
  - intros af s p rest. apply set_loop_skip_above.
  - intros af pre p post. apply set_loop_stops_at_target.
Qed.

(** ** Invariants of computations *)

(** [c] keeps the state predicate [P], whether it returns or raises. *)
Definition preserves (P : world -> Prop) {A} (c : M A) : Prop :=
  forall w r w', P w -> c w = (r, w') -> P w'.

(** [c] does not raise from a state satisfying [P]. *)
Definition no_raise (P : world -> Prop) {A} (c : M A) : Prop :=
  forall w r w', P w -> c w = (r, w') -> exists a, r = Ok a.

Section Combinators.
Variable P : world -> Prop.

Lemma preserves_ret {A} (a : A) : preserves P (ret a).
Proof. intros w r w' HP H. inversion H; subst; exact HP. Qed.

Lemma preserves_raise {A} (e : exn) : preserves P (@raise A e).
Proof. intros w r w' HP H. inversion H; subst; exact HP. Qed.

Lemma preserves_get_world : preserves P get_world.
Proof. intros w r w' HP H. inversion H; subst; exact HP. Qed.

Lemma preserves_bind {A B} (c : M A) (k : A -> M B) :
  preserves P c -> (forall a, preserves P (k a)) -> preserves P (bind c k).
Proof.
  intros Hc Hk w r w' HP. unfold bind.
  destruct (c w) as [[a|e] w1] eqn:E; intros H.
  - exact (Hk a _ _ _ (Hc _ _ _ HP E) H).
  - inversion H; subst. exact (Hc _ _ _ HP E).
Qed.

Lemma preserves_try {A} (c : M A) (h : exn -> M A) :
  preserves P c -> (forall e, preserves P (h e)) -> preserves P (try_except c h).
Proof.
  intros Hc Hh w r w' HP. unfold try_except.
  destruct (c w) as [[a|e] w1] eqn:E; intros H.
  - inversion H; subst. exact (Hc _ _ _ HP E).
  - exact (Hh e _ _ _ (Hc _ _ _ HP E) H).
Qed.

Lemma preserves_for_each {A} (l : list A) (f : A -> M unit) :
  (forall x, preserves P (f x)) -> preserves P (for_each l f).
Proof.
  intros Hf. induction l as [|x t IH]; simpl.
  - apply preserves_ret.
  - apply preserves_bind; [apply Hf | intros _; exact IH].
Qed.

Lemma no_raise_ret {A} (a : A) : no_raise P (ret a).
Proof. intros w r w' _ H. inversion H; subst. eauto. Qed.

Lemma no_raise_bind {A B} (c : M A) (k : A -> M B) :
  preserves P c -> no_raise P c -> (forall a, no_raise P (k a)) -> no_raise P (bind c k).
Proof.
  intros Hp Hc Hk w r w' HP. unfold bind.
  destruct (c w) as [[a|e] w1] eqn:E; intros H.
  - exact (Hk a _ _ _ (Hp _ _ _ HP E) H).
  - destruct (Hc _ _ _ HP E) as [a Ha]. discriminate.
Qed.

Lemma no_raise_for_each {A} (l : list A) (f : A -> M unit) :
  (forall x, preserves P (f x)) -> (forall x, no_raise P (f x)) -> no_raise P (for_each l f).
Proof.
  intros Hp Hf. induction l as [|x t IH]; simpl.
  - apply no_raise_ret.
  - apply no_raise_bind; [apply Hp | apply Hf | intros _; exact IH].
Qed.

Hypothesis P_logged : forall w m, P w -> P (logged w m).

Lemma preserves_print (m : msg) : preserves P (print m).
Proof. intros w r w' HP H. inversion H; subst. now apply P_logged. Qed.

Lemma no_raise_print (m : msg) : no_raise P (print m).
Proof. intros w r w' _ H. inversion H; subst. eauto. Qed.

Lemma preserves_get_all_data_directories (fs : fsys) (base : string) :
  preserves P (get_all_data_directories fs base).
Proof.
  unfold get_all_data_directories.
  destruct (fs_listdir fs base).
  - apply preserves_ret.
  - apply preserves_bind; [apply preserves_print | intros; apply preserves_ret].
  - apply preserves_raise.
Qed.

Lemma preserves_get_applied_migrations : preserves P get_applied_migrations.
Proof. intros w r w' HP H. apply get_applied_migrations_frame in H. now subst. Qed.

End Combinators.

(** Unfolds the primitives of the connection and splits on every case. *)
Ltac prim_unfold H :=
  repeat progress (unfold setup_migration_tracking, drop_table, insert_history,
    cursor_execute, write_db, begin_if_needed, commit, rollback, conn_path, get_world,
    put_world, bind, ret, raise in H);
  cbv beta iota zeta in H.

Ltac prim_cases H :=
  prim_unfold H;
  repeat (match type of H with
          | context [match ?x with _ => _ end] =>
              lazymatch x with
              | context [match _ with _ => _ end] => fail
              | _ => destruct x eqn:?
              end
          end; prim_unfold H);
  inversion H; subst; clear H.

Lemma preserves_conn_path (P : world -> Prop) : preserves P conn_path.
Proof. intros w r w' HP H. prim_cases H; exact HP. Qed.

(** The applier and the step controller keep every invariant that the
    statements, the ledger insert, [commit] and [rollback] keep. *)
Section Composites.
Variable P : world -> Prop.
Hypothesis P_logged : forall w m, P w -> P (logged w m).
Variable ex : engine.
Variable fs : fsys.
Hypothesis H_exec : forall stmt, preserves P (cursor_execute ex stmt).
Hypothesis H_insert : forall f d, preserves P (insert_history f d).
Hypothesis H_commit : preserves P commit.
Hypothesis H_rollback : preserves P rollback.

Create HintDb pres.
Local Hint Resolve H_exec H_insert H_commit H_rollback : pres.
Local Hint Resolve preserves_ret preserves_raise preserves_get_world preserves_conn_path
  preserves_get_applied_migrations : pres.
Local Hint Resolve preserves_print preserves_get_all_data_directories : pres.

Ltac pres :=
  repeat first
    [ solve [eauto with pres]
    | progress cbv beta zeta
    | apply preserves_bind; [|intros ?]
    | apply preserves_try; [|intros ?]
    | apply preserves_for_each; intros ?
    | match goal with
      | |- preserves _ (match ?x with _ => _ end) => destruct x
      | |- preserves _ (if ?x then _ else _) => destruct x
      end
    ].

Lemma preserves_tolerate (filename : string) (e : exn) : preserves P (tolerate filename e).
Proof. unfold tolerate. pres. Qed.
Local Hint Resolve preserves_tolerate : pres.

Lemma preserves_run_statements (filename : string) (stmts : list string) :
  preserves P (run_statements ex filename stmts).
Proof. unfold run_statements. pres. Qed.
Local Hint Resolve preserves_run_statements : pres.

Lemma preserves_apply_migration (sql_file dir_prefix : string) :
  preserves P (apply_migration ex fs sql_file dir_prefix).
Proof. unfold apply_migration. pres. Qed.
Local Hint Resolve preserves_apply_migration : pres.

Lemma preserves_apply_all (sql_files : list string) (dir_name : string) :
  preserves P (apply_all ex fs sql_files dir_name).
Proof. unfold apply_all. pres. Qed.
Local Hint Resolve preserves_apply_all : pres.

Lemma preserves_set_files af (dir_name : string) (sql_files : list string) :
  preserves P (set_files ex fs af dir_name sql_files).
Proof. unfold set_files. pres. Qed.
Local Hint Resolve preserves_set_files : pres.

Lemma preserves_set_loop af (k : Z) (dirs : list (Z * string)) :
  preserves P (set_loop ex fs af k dirs).
Proof.
  induction dirs as [|[s p] rest IH]; simpl; [pres|].
  pres.
Qed.
Local Hint Resolve preserves_set_loop : pres.

Lemma preserves_set (k : Z) : preserves P (set ex fs k).
Proof. unfold set. pres. Qed.

Lemma preserves_status_dirs dc dirs acc : preserves P (status_dirs fs dc dirs acc).
Proof. revert acc. induction dirs as [|[s p] rest IH]; intros acc; simpl; pres. Qed.
Local Hint Resolve preserves_status_dirs : pres.

Lemma preserves_status : preserves P (status fs).
Proof. unfold status. pres. Qed.

Hypothesis H_reset_db : preserves P (reset_database ex).
Local Hint Resolve H_reset_db : pres.

Lemma preserves_reset : preserves P (reset ex fs).
Proof. unfold reset. pres. Qed.

End Composites.

(** ** The connection stays open *)

Definition conn_is (p : string) (w : world) : Prop := w_conn w = Some p.

Lemma conn_is_logged p w m : conn_is p w -> conn_is p (logged w m).
Proof. unfold conn_is; simpl; auto. Qed.

Ltac conn_prim := intros w r w' HP H; unfold conn_is in *; prim_cases H; simpl; congruence.

Lemma conn_cursor_execute p ex stmt : preserves (conn_is p) (cursor_execute ex stmt).
Proof. conn_prim. Qed.

Lemma conn_insert_history p f d : preserves (conn_is p) (insert_history f d).
Proof. conn_prim. Qed.

Lemma conn_commit p : preserves (conn_is p) commit.
Proof. conn_prim. Qed.

Lemma conn_rollback p : preserves (conn_is p) rollback.
Proof. conn_prim. Qed.

Lemma conn_apply_migration p ex fs f d : preserves (conn_is p) (apply_migration ex fs f d).
Proof.
  apply preserves_apply_migration; auto using conn_is_logged, conn_cursor_execute,
    conn_insert_history, conn_commit, conn_rollback.
Qed.

Lemma conn_set_files p ex fs af d l : preserves (conn_is p) (set_files ex fs af d l).
Proof.
  apply preserves_set_files; auto using conn_is_logged, conn_cursor_execute,
    conn_insert_history, conn_commit, conn_rollback.
Qed.

Lemma no_raise_try (P : world -> Prop) {A} (c : M A) (h : exn -> M A) :
  preserves P c -> (forall e, no_raise P (h e)) -> no_raise P (try_except c h).
Proof.
  intros Hc Hh w r w' HP. unfold try_except.
  destruct (c w) as [[a|e] w1] eqn:E; intros H.
  - inversion H; subst. eauto.
  - exact (Hh e _ _ _ (Hc _ _ _ HP E) H).
Qed.

(** [apply_migration] reports every failure by its result: it never raises
    while the connection is open. *)
Lemma apply_migration_no_raise p ex fs f d : no_raise (conn_is p) (apply_migration ex fs f d).
Proof.
  unfold apply_migration. apply no_raise_try.
  - apply preserves_bind; [apply preserves_conn_path|]. intros _.
    destruct (fs_read fs f); [|apply preserves_raise].
    apply preserves_bind; [|intros _].
    { apply preserves_run_statements; auto using conn_is_logged, conn_cursor_execute. }
    apply preserves_bind; [apply conn_insert_history | intros _].
    apply preserves_bind; [apply conn_commit | intros _].
    apply preserves_bind; [apply preserves_print, conn_is_logged | intros _].
    apply preserves_ret.
  - intros e. apply no_raise_bind; [apply conn_rollback| |intros _].
    + intros w r w' HP H. unfold conn_is in HP. prim_cases H; [eauto | congruence].
    + apply no_raise_bind; [apply preserves_print, conn_is_logged | apply no_raise_print |].
      intros _. apply no_raise_ret.
Qed.

Lemma set_files_no_raise p ex fs af d l : no_raise (conn_is p) (set_files ex fs af d l).
Proof.
  unfold set_files. apply no_raise_for_each; intros x; cbv beta zeta;
    destruct (pending af (Path.basename x) d).
  - apply preserves_bind; [apply conn_apply_migration | intros; apply preserves_ret].
  - apply preserves_print, conn_is_logged.
  - apply no_raise_bind; [apply conn_apply_migration | apply apply_migration_no_raise |].
    intros; apply no_raise_ret.
  - apply no_raise_print.
Qed.

Lemma set_loop_no_raise p ex fs af k dirs : no_raise (conn_is p) (set_loop ex fs af k dirs).
Proof.
  induction dirs as [|[s q] rest IH]; simpl; [apply no_raise_ret|].
  apply no_raise_bind.
  - destruct (s <=? k)%Z; [|apply preserves_ret].
    apply preserves_bind; [apply preserves_print, conn_is_logged | intros; apply conn_set_files].
  - destruct (s <=? k)%Z; [|apply no_raise_ret].
    apply no_raise_bind; [apply preserves_print, conn_is_logged | apply no_raise_print |].
    intros; apply set_files_no_raise.
  - intros _. destruct (s =? k)%Z; [apply no_raise_ret | exact IH].
Qed.

(** ** A concrete engine for the examples

    [demo_engine] behaves as SQLite (with foreign keys on) on the handful of
    statements the examples use, with SQLite's error classes and messages:
    creating an object that exists is an [OperationalError] "... already
    exists", reading a missing table or view an [OperationalError] "no such
    table", a duplicate primary key an [IntegrityError] "UNIQUE constraint
    failed", and [DROP TABLE] of a table whose rows are still referenced by
    another table's foreign key an [IntegrityError] "FOREIGN KEY constraint
    failed". Any other text is a syntax error. *)
Module Demo.

Definition find_obj (s : list sql_obj) (n : string) : option sql_obj :=
  find (fun o => String.eqb (o_name o) n) s.

Definition kind_name (t : obj_type) : string :=
  match t with OTable => "table" | OIndex => "index" | OView => "view" | OTrigger => "trigger" end.

Definition create (t : obj_type) (n : string) (refs : list string) (s : list sql_obj) : exec_result :=
  match find_obj s n with
  | Some o => Failed (OperationalError (kind_name (o_type o) ++ " " ++ n ++ " already exists"))
  | None => Done (s ++ [mk_obj t n n refs []])
  end.

Definition insert_row (n : string) (row : list string) (s : list sql_obj) : exec_result :=
  match find_obj s n with
  | Some o =>
      if existsb (fun r => match r, row with k :: _, k' :: _ => String.eqb k k' | _, _ => false end)
                 (o_rows o)
      then Failed (IntegrityError ("UNIQUE constraint failed: " ++ n ++ ".id"))
      else Done (map (fun o' => if String.eqb (o_name o') n
                                then mk_obj (o_type o') (o_name o') (o_tbl o') (o_refs o') (o_rows o' ++ [row])
                                else o') s)
  | None => Failed (OperationalError ("no such table: " ++ n))
  end.

Definition select_from (n : string) (s : list sql_obj) : exec_result :=
  match find_obj s n with
  | Some _ => Done s
  | None => Failed (OperationalError ("no such table: " ++ n))
  end.

Definition drop_table_if_exists (n : string) (s : list sql_obj) : exec_result :=
  match find_obj s n with
  | Some o =>
      if existsb (fun t => negb (String.eqb (o_name t) n) && existsb (String.eqb n) (o_refs t)
                           && negb (match o_rows t with [] => true | _ => false end)) s
         && negb (match o_rows o with [] => true | _ => false end)
      then Failed (IntegrityError "FOREIGN KEY constraint failed")
      else Done (filter (fun t => negb (String.eqb (o_name t) n || String.eqb (o_tbl t) n)) s)
  | None => Done s
  end.

Definition drop_prefix : string := "DROP TABLE IF EXISTS ".

(** The table name of ["DROP TABLE IF EXISTS name;"]. *)
Definition drop_target (stmt : string) : option string :=
  if String.prefix drop_prefix stmt then
    let rest := substring (String.length drop_prefix)
                          (String.length stmt - String.length drop_prefix) stmt in
    Some (substring 0 (String.length rest - 1) rest)
  else None.

Definition demo_engine : engine := fun s stmt =>
  match drop_target stmt with
  | Some n => drop_table_if_exists n s
  | None =>
  if String.eqb stmt "CREATE TABLE customers (id INTEGER PRIMARY KEY)" then
    create OTable "customers" [] s
  else if String.eqb stmt
    "CREATE TABLE orders (id INTEGER PRIMARY KEY, customer_id INTEGER REFERENCES customers(id))" then
    create OTable "orders" ["customers"] s
  else if String.eqb stmt "INSERT INTO customers (id) VALUES (1)" then
    insert_row "customers" ["1"] s
  else if String.eqb stmt "INSERT INTO orders (id, customer_id) VALUES (1, 1)" then
    insert_row "orders" ["1"; "1"] s
  else if String.eqb stmt "CREATE VIEW report AS SELECT 1 AS x" then
    create OView "report" [] s
  else if String.eqb stmt "SELECT * FROM report" then select_from "report" s
  else if String.eqb stmt "SELECT * FROM missing" then select_from "missing" s
  else Failed (OperationalError "syntax error")
  end.

(** A file system given by its directories and its files. *)
Definition fs_of (dirs : list (string * list string)) (files : list (string * string)) : fsys :=
  mk_fs (fun p => match dict_get dirs p with Some l => LOk l | None => LNotFound end)
        (fun p => match dict_get dirs p with Some _ => true | None => false end)
        (fun p => dict_get files p).

(** A state with a connection open on ["app.db"] holding [d], no transaction,
    and [_data_dir = "data"]. *)
Definition connected (d : db) : world :=
  mk_world (Some "app.db") None "data" "app.db" (fun q => if String.eqb q "app.db" then d else empty_db) [].

(** A fresh process: no connection, no database file yet. *)
Definition fresh : world := mk_world None None "data" "database.db" (fun _ => empty_db) [].

End Demo.

(** ** C1: no forward-only guard in [set] *)

(** The spec's [maxAppliedStep]: the highest step number named by the prefix
    of a ledger row's directory label, [-1] for an empty ledger. The source
    computes no such value; it serves to state the spec's guard. *)
Definition spec_max_applied_step (rows : list ledger_row) : Z :=
  fold_left (fun m r => match dir_pattern_match (snd r) with
                        | Some d => Z.max m (Str.int_of_digits d)
                        | None => m
                        end) rows (-1)%Z.

Definition fs_two_steps : fsys :=
  Demo.fs_of [("data", ["0_init"; "1_seed"]); ("data/0_init", ["a.sql"]); ("data/1_seed", ["c.sql"])]
             [("data/0_init/a.sql", ""); ("data/1_seed/c.sql", "")].

Definition ledger_two_steps : list ledger_row := [("a.sql", "0_init"); ("c.sql", "1_seed")].




(** ** The ledger unchanged *)

(** The connection is open on [p] and the ledger of [p] reads [rows], in the
    file and in the open transaction if there is one. *)
Definition ledger_is (p : string) (rows : list ledger_row) (w : world) : Prop :=
  w_conn w = Some p /\ history (w_disk w p) = Some rows /\
  (forall d, w_tx w = Some d -> history d = Some rows).

Lemma ledger_is_logged p rows w m : ledger_is p rows w -> ledger_is p rows (logged w m).
Proof. unfold ledger_is; simpl; auto. Qed.

Ltac ledger_prim :=
  intros w r w' (Hc & Hh & Ht) H; prim_cases H;
  unfold ledger_is, with_disk, with_conn, cur_db in *; simpl in *;
  repeat match goal with
  | H : w_tx ?w = _ |- context [w_tx ?w] => rewrite H
  end;
  repeat split; try congruence; try (apply Ht; reflexivity);
  repeat match goal with
  | |- context [String.eqb ?a ?b] => destruct (String.eqb_spec a b); subst
  end;
  intros; simpl in *; try congruence;
  repeat match goal with
  | H : Some _ = Some _ |- _ => injection H as <-
  end; simpl; auto; try congruence.

Lemma ledger_is_cursor_execute p rows ex stmt : preserves (ledger_is p rows) (cursor_execute ex stmt).
Proof. ledger_prim. Qed.

Lemma ledger_is_commit p rows : preserves (ledger_is p rows) commit.
Proof. ledger_prim. Qed.

Lemma ledger_is_rollback p rows : preserves (ledger_is p rows) rollback.
Proof. ledger_prim. Qed.

(** The [UNIQUE] constraint: inserting a filename the ledger holds raises,
    and the ledger stays as it was. *)
Lemma insert_history_duplicate p rows f d w r w' :
  ledger_is p rows w -> In f (map fst rows) -> insert_history f d w = (r, w') ->
  ledger_is p rows w' /\ exists e, r = Raise e.
Proof.
  intros (Hc & Hh & Ht) Hin H. prim_cases H;
    unfold ledger_is, with_disk, with_conn, cur_db in *; simpl in *;
    repeat match goal with
    | H : w_tx ?w = _ |- context [w_tx ?w] => rewrite H
    | H : w_tx ?w = _, H' : context [w_tx ?w] |- _ => rewrite H in H'
    end; simpl in *.
  all: try match goal with
       | Hx : existsb _ ?l = false |- _ =>
           exfalso; apply Bool.not_true_iff_false in Hx; apply Hx;
           apply existsb_exists; apply in_map_iff in Hin as ([f' d'] & <- & Hf);
           exists (f', d'); split; [|apply String.eqb_refl];
           enough (Some l = Some rows) as E by (injection E as ->; exact Hf);
           first [congruence | pose proof (Ht _ eq_refl); congruence]
       end.
  all: try (split; [repeat split; try congruence; intros; simpl in *; try congruence;
                    try (apply Ht; congruence) | eexists; reflexivity]).
  all: try (split; [repeat split; try congruence; rewrite String.eqb_refl in *; congruence
                   | eexists; reflexivity]).
Qed.

Lemma dict_get_set_same {V} (acc : list (string * V)) k v : dict_get (dict_set acc k v) k = Some v.
Proof.
  induction acc as [|[k' v'] t IH]; simpl; [now rewrite String.eqb_refl|].
  destruct (String.eqb_spec k k'); simpl.
  - subst. now rewrite String.eqb_refl.
  - destruct (String.eqb_spec k k'); [contradiction | exact IH].
Qed.

Lemma dict_get_set_other {V} (acc : list (string * V)) k v f :
  f <> k -> dict_get (dict_set acc k v) f = dict_get acc f.
Proof.
  intros Hne. induction acc as [|[k' v'] t IH]; simpl.
  - destruct (String.eqb_spec f k); [contradiction | reflexivity].
  - destruct (String.eqb_spec k k'); simpl.
    + subst. destruct (String.eqb_spec f k'); [contradiction | reflexivity].
    + destruct (String.eqb_spec f k'); [reflexivity | exact IH].
Qed.

Lemma applied_files_other (rows : list ledger_row) (acc : list (string * string)) f :
  ~ In f (map fst rows) ->
  dict_get (fold_left (fun acc r => dict_set acc (fst r) (snd r)) rows acc) f = dict_get acc f.
Proof.
  revert acc. induction rows as [|[k v] t IH]; intros acc Hnin; simpl in *; [reflexivity|].
  rewrite IH by tauto. apply dict_get_set_other. intros ->. tauto.
Qed.

(** In a ledger without repeated filenames, [applied_files] maps each
    recorded filename to its label. *)
Lemma applied_files_of_lookup rows f d :
  NoDup (map fst rows) -> In (f, d) rows -> dict_get (applied_files_of rows) f = Some d.
Proof.
  unfold applied_files_of. generalize (@nil (string * string)) as acc.
  induction rows as [|[k v] t IH]; intros acc Hnd Hin; [destruct Hin|].
  simpl in Hnd. inversion Hnd as [|? ? Hk Hnd']; subst.
  destruct Hin as [E|Hin]; simpl.
  - injection E as -> ->. rewrite applied_files_other by exact Hk. apply dict_get_set_same.
  - apply IH; [exact Hnd' | exact Hin].
Qed.

(** [c] raises, and keeps [P]. *)
Definition raises_keeping (P : world -> Prop) {A} (c : M A) : Prop :=
  forall w r w', P w -> c w = (r, w') -> P w' /\ exists e, r = Raise e.

Lemma raises_keeping_raise P {A} (e : exn) : raises_keeping P (@raise A e).
Proof. intros w r w' HP H. inversion H; subst. eauto. Qed.

Lemma raises_keeping_bind_l P {A B} (c : M A) (k : A -> M B) :
  raises_keeping P c -> raises_keeping P (bind c k).
Proof.
  intros Hc w r w' HP. unfold bind. destruct (c w) as [[a|e] w1] eqn:E; intros H.
  - destruct (Hc _ _ _ HP E) as [_ [e' He']]. discriminate.
  - inversion H; subst. destruct (Hc _ _ _ HP E) as [HP1 _]. eauto.
Qed.

Lemma raises_keeping_bind_r P {A B} (c : M A) (k : A -> M B) :
  preserves P c -> (forall a, raises_keeping P (k a)) -> raises_keeping P (bind c k).
Proof.
  intros Hc Hk w r w' HP. unfold bind. destruct (c w) as [[a|e] w1] eqn:E; intros H.
  - exact (Hk a _ _ _ (Hc _ _ _ HP E) H).
  - inversion H; subst. split; [exact (Hc _ _ _ HP E) | eauto].
Qed.

(** [apply_migration] of a file whose name the ledger already holds: its
    ledger insert fails on the [UNIQUE] filename, the file is rolled back and
    reported as failed, and the ledger is left as it was. *)
Lemma apply_migration_duplicate ex fs sql_file d w p rows :
  ledger_is p rows w -> In (Path.basename sql_file) (map fst rows) ->
  exists w', apply_migration ex fs sql_file d w = (Ok false, w') /\
             ledger_is p rows w' /\ w_tx w' = None.
Proof.
  intros HL Hin. unfold apply_migration, try_except.
  match goal with |- context [match ?c w with _ => _ end] =>
    destruct (c w) as [r1 w1] eqn:Hb;
    assert (Hrk : raises_keeping (ledger_is p rows) c) end.
  { apply raises_keeping_bind_r; [apply preserves_conn_path | intros _].
    destruct (fs_read fs sql_file); [|apply raises_keeping_raise].
    apply raises_keeping_bind_r.
    { apply preserves_run_statements;
        auto using ledger_is_logged, ledger_is_cursor_execute. }
    intros _. apply raises_keeping_bind_l.
    intros w0 r0 w0' HP0 H0. exact (insert_history_duplicate _ _ _ _ _ _ _ HP0 Hin H0). }
  destruct (Hrk _ _ _ HL Hb) as [(Hc1 & Hh1 & _) [e ->]].
  cbv [bind rollback conn_path get_world put_world print ret raise]. rewrite Hc1.
  eexists. split; [reflexivity|]. unfold ledger_is; simpl. repeat split; try assumption.
  discriminate.
Qed.

(** ** C2: a file recorded under another label *)

Definition fs_relabel : fsys :=
  Demo.fs_of [("data", ["0_a"; "1_b"]); ("data/0_a", ["x.sql"]); ("data/1_b", ["x.sql"])]
             [("data/0_a/x.sql", ""); ("data/1_b/x.sql", "")].




(** ** C4: what [status] counts *)

(** The number of ledger rows recorded under [label]. *)
Definition count_label (rows : list ledger_row) (label : string) : nat :=
  List.length (filter (fun r => String.eqb (snd r) label) rows).

(** The spec's count: the files of the directory [dir_path] that the ledger
    holds under that directory's label. *)
Definition spec_applied_count (fs : fsys) (rows : list ledger_row) (dir_path : string) : nat :=
  List.length (filter (fun f => existsb (fun r => String.eqb (fst r) (Path.basename f)
                                              && String.eqb (snd r) (Path.basename dir_path)) rows)
                      (get_sql_files_in_dir fs dir_path)).

(** The [directories] part of the report, built as [status] builds it. *)
Definition dir_report (fs : fsys) (rows : list ledger_row) (dirs : list (Z * string))
    : list (string * (nat * nat)) :=
  fold_left (fun acc (x : Z * string) =>
               let dir_name := Path.basename (snd x) in
               dict_set acc dir_name (count_label rows dir_name,
                                      List.length (get_sql_files_in_dir fs (snd x))))
            dirs [].

Lemma count_by_dir_acc (rows : list ledger_row) (acc : list (string * nat)) (n : string) :
  dict_get_default
    (fold_left (fun acc r => dict_set acc (snd r) (dict_get_default acc (snd r) 0 + 1)) rows acc)
    n 0 = dict_get_default acc n 0 + count_label rows n.
Proof.
  unfold count_label. revert acc.
  induction rows as [|[f l] t IH]; intros acc; cbn [fold_left filter List.length snd]; [lia|].
  rewrite IH. destruct (String.eqb_spec l n) as [->|Hne]; cbn [List.length].
  - unfold dict_get_default at 1. rewrite dict_get_set_same. lia.
  - unfold dict_get_default at 1 3. rewrite dict_get_set_other by congruence. reflexivity.
Qed.

Lemma count_by_dir_spec (rows : list ledger_row) (n : string) :
  dict_get_default (count_by_dir rows) n 0 = count_label rows n.
Proof. unfold count_by_dir. rewrite count_by_dir_acc. reflexivity. Qed.

Lemma status_dirs_spec fs rows dirs acc w :
  exists w', status_dirs fs (count_by_dir rows) dirs acc w =
    (Ok (fold_left (fun acc (x : Z * string) =>
               let dir_name := Path.basename (snd x) in
               dict_set acc dir_name (count_label rows dir_name,
                                      List.length (get_sql_files_in_dir fs (snd x))))
            dirs acc), w') /\ same_db w w'.
Proof.
  revert acc w. induction dirs as [|[s q] rest IH]; intros acc w; simpl.
  - eexists. split; [reflexivity | apply same_db_refl].
  - unfold bind, print at 1. rewrite count_by_dir_spec.
    destruct (IH (dict_set acc (Path.basename q)
                   (count_label rows (Path.basename q), List.length (get_sql_files_in_dir fs q)))
                 (logged w (MDirCount (Path.basename q) (count_label rows (Path.basename q))
                                       (List.length (get_sql_files_in_dir fs q)))))
      as (w' & H & Hs).
    exists w'. split; [exact H|]. exact (same_db_trans _ _ _ (same_db_logged _ _) Hs).
Qed.

Definition fs_stale : fsys :=
  Demo.fs_of [("data", ["0_init"]); ("data/0_init", ["a.sql"])] [("data/0_init/a.sql", "")].




(** ** C3: what the rollback of a failed file undoes *)

Definition fs_ddl_then_error : fsys :=
  Demo.fs_of [("data", ["0_init"]); ("data/0_init", ["a.sql"])]
    [("data/0_init/a.sql", "CREATE TABLE customers (id INTEGER PRIMARY KEY);
SELECT * FROM missing;")].

(** C3. A file whose first statement creates a table and whose second fails
    with an error that is not tolerated: [apply_migration] rolls back,
    returns [False] and adds no ledger row, but [sqlite3] opened no
    transaction before the [CREATE TABLE] (it does so only before INSERT,
    UPDATE, DELETE and REPLACE), so the table was committed when it was
    created and survives the rollback. *)
Theorem apply_migration_ddl_survives_rollback :
  let r := apply_migration Demo.demo_engine fs_ddl_then_error "data/0_init/a.sql" "0_init"
             (Demo.connected (mk_db [] (Some []))) in
  fst r = Ok false /\
  w_tx (snd r) = None /\
  history (w_disk (snd r) "app.db") = Some [] /\
  map o_name (schema (w_disk (snd r) "app.db")) = ["customers"] /\
  w_out (snd r) = [MApplyError "data/0_init/a.sql"
                     (SqlExc (OperationalError "no such table: missing"))].
Proof. vm_compute. repeat split. Qed.

(** ** C5: filenames are unique in the ledger *)

(** The ledger of a database, when it exists, names each file at most once. *)
Definition db_ok (d : db) : Prop :=
  forall rows, history d = Some rows -> NoDup (map fst rows).

(** Every database file and the open transaction satisfy [db_ok]. *)
Definition ledger_ok (w : world) : Prop :=
  (forall p, db_ok (w_disk w p)) /\ (forall d, w_tx w = Some d -> db_ok d).

(** The operations a caller of the module performs. *)
Inductive op :=
  | OpInit (db_path data_dir : string)
  | OpSet (target_step : Z)
  | OpReset
  | OpClose
  | OpStatus.

Definition run_op (ex : engine) (fs : fsys) (o : op) : M unit :=
  match o with
  | OpInit db_path data_dir => _ <- init ex fs db_path data_dir ;; ret tt
  | OpSet k => _ <- set ex fs k ;; ret tt
  | OpReset => _ <- reset ex fs ;; ret tt
  | OpClose => _ <- close ;; ret tt
  | OpStatus => _ <- status fs ;; ret tt
  end.

(** A caller's session: the operations in order, an exception escaping one of
    them being caught by the caller, who goes on with the next. *)
Definition run_ops (ex : engine) (fs : fsys) (ops : list op) : M unit :=
  for_each ops (fun o => try_except (run_op ex fs o) (fun _ => ret tt)).

Lemma ledger_ok_logged w m : ledger_ok w -> ledger_ok (logged w m).
Proof. unfold ledger_ok; simpl; auto. Qed.

Lemma ledger_ok_cur w p : ledger_ok w -> db_ok (cur_db w p).
Proof.
  intros (Hd & Ht). unfold cur_db. destruct (w_tx w) eqn:E; [apply Ht; reflexivity | apply Hd].
Qed.

Lemma db_ok_with_schema s d : db_ok d -> db_ok (mk_db s (history d)).
Proof. unfold db_ok; simpl; auto. Qed.

Definition opt_ok (t : option db) : Prop := forall d, t = Some d -> db_ok d.

Lemma opt_ok_none : opt_ok None.
Proof. intros d H; discriminate. Qed.

Lemma opt_ok_some d : db_ok d -> opt_ok (Some d).
Proof. intros Hd d' H; injection H as <-; exact Hd. Qed.

Lemma ledger_ok_disk w p : ledger_ok w -> db_ok (w_disk w p).
Proof. intros (Hd & _); apply Hd. Qed.

Lemma ledger_ok_with_conn w c t : ledger_ok w -> opt_ok t -> ledger_ok (with_conn w c t).
Proof. intros (Hd & _) Ht. split; [exact Hd | exact Ht]. Qed.

Lemma ledger_ok_with_disk w p d : ledger_ok w -> db_ok d -> ledger_ok (with_disk w p d).
Proof.
  intros (Hd & Ht) Hok. split; [|exact Ht].
  intros q; simpl. destruct (String.eqb q p); [exact Hok | apply Hd].
Qed.

Lemma ledger_ok_with_paths w a b : ledger_ok w -> ledger_ok (with_paths w a b).
Proof. intros (Hd & Ht); split; [exact Hd | exact Ht]. Qed.

Lemma db_ok_no_ledger s : db_ok (mk_db s None).
Proof. intros rows H; discriminate. Qed.

Lemma db_ok_empty_ledger s : db_ok (mk_db s (Some [])).
Proof. intros rows H; injection H as <-; constructor. Qed.

Lemma ledger_ok_tx w d : ledger_ok w -> w_tx w = Some d -> db_ok d.
Proof. intros (_ & Ht); apply Ht. Qed.

Lemma db_ok_append d l s f x :
  history d = Some l -> db_ok d -> existsb (fun r : ledger_row => String.eqb (fst r) f) l = false ->
  db_ok (mk_db s (Some (l ++ [(f, x)]))).
Proof.
  intros Hh Hd Hf rows Hr. injection Hr as <-. specialize (Hd l Hh).
  rewrite map_app. simpl. apply NoDup_app; [exact Hd | constructor; [intros [] | constructor] |].
  intros a Ha [<- | []]. apply in_map_iff in Ha as ([g y] & <- & Hin).
  assert (Hex : existsb (fun r : ledger_row => String.eqb (fst r) g) l = true).
  { apply existsb_exists. exists (g, y). split; [exact Hin | apply String.eqb_refl]. }
  simpl in *. congruence.
Qed.

Create HintDb lok.
#[local] Hint Resolve opt_ok_none opt_ok_some ledger_ok_disk ledger_ok_with_conn
  ledger_ok_with_disk ledger_ok_with_paths db_ok_with_schema ledger_ok_cur
  db_ok_no_ledger db_ok_empty_ledger ledger_ok_logged ledger_ok_tx : lok.
#[local] Hint Extern 1 (db_ok (mk_db _ (Some (_ ++ [_])))) =>
  eapply db_ok_append; [eassumption | | eassumption] : lok.

Ltac lok_prim := intros w r w' HP H; prim_cases H; eauto 10 with lok.

Lemma ledger_ok_cursor_execute ex stmt : preserves ledger_ok (cursor_execute ex stmt).
Proof. lok_prim. Qed.

Lemma ledger_ok_commit : preserves ledger_ok commit.
Proof. lok_prim. Qed.

Lemma ledger_ok_rollback : preserves ledger_ok rollback.
Proof. lok_prim. Qed.

Lemma ledger_ok_insert_history f d : preserves ledger_ok (insert_history f d).
Proof.
  intros w r w' HP H; prim_cases H; eauto 14 with lok.
Qed.

Lemma ledger_ok_drop_table ex n : preserves ledger_ok (drop_table ex n).
Proof. lok_prim. Qed.

Lemma ledger_ok_setup : preserves ledger_ok setup_migration_tracking.
Proof. lok_prim. Qed.

Lemma ledger_ok_reset_database ex : preserves ledger_ok (reset_database ex).
Proof.
  unfold reset_database.
  apply preserves_bind; [apply preserves_conn_path | intros p].
  apply preserves_bind; [apply preserves_get_world | intros w].
  apply preserves_bind.
  { apply preserves_for_each; intros t. destruct (negb _); [apply ledger_ok_drop_table | apply preserves_ret]. }
  intros _. apply preserves_bind; [apply ledger_ok_setup | intros _].
  apply preserves_bind; [apply ledger_ok_commit | intros _].
  apply preserves_print. exact ledger_ok_logged.
Qed.

Lemma preserves_get_put (P : world -> Prop) (f : world -> world) {A} (k : M A) :
  (forall w, P w -> P (f w)) -> preserves P k ->
  preserves P (w <- get_world ;; put_world (f w) ;; k).
Proof.
  intros Hf Hk w r w' HP H. cbv [bind get_world put_world] in H.
  exact (Hk _ _ _ (Hf _ HP) H).
Qed.

Lemma ledger_ok_init ex fs db_path data_dir : preserves ledger_ok (init ex fs db_path data_dir).
Proof.
  unfold init.
  apply (preserves_get_put _ (fun w => with_conn (with_paths w db_path data_dir) (Some db_path) None)).
  { intros w HP. eauto with lok. }
  apply preserves_bind; [apply ledger_ok_reset_database | intros _].
  apply preserves_bind; [apply preserves_get_all_data_directories; exact ledger_ok_logged | intros dirs].
  apply preserves_bind; [|intros _; apply preserves_ret].
  destruct (find_step0 dirs) as [d|]; [destruct (String.eqb d "")|].
  - apply preserves_print; exact ledger_ok_logged.
  - apply preserves_bind; [apply preserves_print; exact ledger_ok_logged | intros _].
    apply preserves_apply_all; auto using ledger_ok_logged, ledger_ok_cursor_execute,
      ledger_ok_insert_history, ledger_ok_commit, ledger_ok_rollback.
  - apply preserves_print; exact ledger_ok_logged.
Qed.

Lemma ledger_ok_close : preserves ledger_ok close.
Proof.
  intros w r w' HP H. cbv [close bind get_world put_world ret] in H.
  destruct (w_conn w); inversion H; subst; eauto with lok.
Qed.

Lemma ledger_ok_run_op ex fs o : preserves ledger_ok (run_op ex fs o).
Proof.
  destruct o; cbn [run_op]; (apply preserves_bind; [|intros _; apply preserves_ret]).
  - apply ledger_ok_init.
  - apply preserves_set; auto using ledger_ok_logged, ledger_ok_cursor_execute,
      ledger_ok_insert_history, ledger_ok_commit, ledger_ok_rollback.
  - apply preserves_reset; auto using ledger_ok_logged, ledger_ok_cursor_execute,
      ledger_ok_insert_history, ledger_ok_commit, ledger_ok_rollback, ledger_ok_reset_database.
  - apply ledger_ok_close.
  - apply preserves_status; exact ledger_ok_logged.
Qed.

Lemma ledger_ok_run_ops ex fs ops : preserves ledger_ok (run_ops ex fs ops).
Proof.
  apply preserves_for_each; intros o.
  apply preserves_try; [apply ledger_ok_run_op | intros _; apply preserves_ret].
Qed.



(** ** C6: [set] only appends to the ledger *)

(** The connection is open on [p]; the committed ledger extends [rows]; an
    open transaction's ledger extends the committed one. *)
Definition ledger_grows (p : string) (rows : list ledger_row) (w : world) : Prop :=
  w_conn w = Some p /\
  (exists e, history (w_disk w p) = Some (rows ++ e)) /\
  (forall d, w_tx w = Some d ->
     exists r e, history (w_disk w p) = Some r /\ history d = Some (r ++ e)).

Lemma ledger_grows_logged p rows w m : ledger_grows p rows w -> ledger_grows p rows (logged w m).
Proof. unfold ledger_grows; simpl; auto. Qed.

Ltac grows_prim :=
  intros w r w' (Hc & (e0 & He) & Ht) H; prim_cases H;
  unfold ledger_grows, with_conn, with_disk, cur_db in *; simpl in *;
  repeat match goal with
  | H : Some _ = Some _ |- _ => injection H as H
  end; subst;
  repeat match goal with
  | H : w_tx ?w = _ |- context [w_tx ?w] => rewrite H
  | H : w_tx ?w = _, H' : context [w_tx ?w] |- _ => rewrite H in H'
  | H1 : w_conn ?w = Some ?a, H2 : w_conn ?w = Some ?b |- _ =>
      rewrite H1 in H2; injection H2 as H2; subst
  | |- context [String.eqb ?a ?a] => rewrite String.eqb_refl
  end; simpl in *; try solve [congruence];
  repeat split; try assumption; try (eexists; eassumption);
  try (intros ? Hd; first [discriminate | injection Hd as <-]; simpl);
  try solve [apply Ht; reflexivity];
  try solve [eexists _, []; rewrite app_nil_r; split; eassumption].

Lemma ledger_grows_cursor_execute p rows ex stmt :
  preserves (ledger_grows p rows) (cursor_execute ex stmt).
Proof.
  grows_prim.
Qed.

Lemma ledger_grows_commit p rows : preserves (ledger_grows p rows) commit.
Proof.
  grows_prim. destruct (Ht d eq_refl) as (r & e & Hr & Hd).
  rewrite He in Hr. injection Hr as <-. exists (e0 ++ e). rewrite Hd, app_assoc. reflexivity.
Qed.

Lemma ledger_grows_rollback p rows : preserves (ledger_grows p rows) rollback.
Proof. grows_prim. Qed.

Lemma ledger_grows_insert_history p rows f d : preserves (ledger_grows p rows) (insert_history f d).
Proof.
  grows_prim.
  - destruct (Ht d0 eq_refl) as (r & e & Hr & Hd). rewrite Heqo2 in Hd. injection Hd as ->.
    exists r, (e ++ [(f, d)]). rewrite app_assoc. split; [exact Hr | reflexivity].
  - exists l, [(f, d)]. split; [exact Heqo2 | reflexivity].
Qed.

Lemma ledger_grows_set p rows ex fs k : preserves (ledger_grows p rows) (set ex fs k).
Proof.
  apply preserves_set; auto using ledger_grows_logged, ledger_grows_cursor_execute,
    ledger_grows_insert_history, ledger_grows_commit, ledger_grows_rollback.
Qed.

Lemma ledger_grows_rebase p rows rows' w :
  ledger_grows p rows w -> history (w_disk w p) = Some rows' -> ledger_grows p rows' w.
Proof.
  intros (Hc & _ & Ht) Hh. split; [exact Hc | split; [exists []; rewrite app_nil_r; exact Hh | exact Ht]].
Qed.



(** ** C7: what a second [init] records *)

(** Step 0 reads a view that its second file creates. *)
Definition fs_view : fsys :=
  Demo.fs_of [("data", ["0_init"]); ("data/0_init", ["a.sql"; "b.sql"])]
    [("data/0_init/a.sql", "SELECT * FROM report;");
     ("data/0_init/b.sql", "CREATE VIEW report AS SELECT 1 AS x;")].


(** [s] is a subsequence of [l]. *)
Inductive subseq {A} : list A -> list A -> Prop :=
  | subseq_nil : subseq [] []
  | subseq_skip x s l : subseq s l -> subseq s (x :: l)
  | subseq_keep x s l : subseq s l -> subseq (x :: s) (x :: l).

(** A committed ledger [rows], connection open on [p], no transaction. *)
Definition settled (p : string) (rows : list ledger_row) (w : world) : Prop :=
  w_conn w = Some p /\ history (w_disk w p) = Some rows /\ w_tx w = None.

Lemma settled_ledger_is p rows w : settled p rows w -> ledger_is p rows w.
Proof. intros (Hc & Hh & Ht). split; [exact Hc | split; [exact Hh | intros d Hd; congruence]]. Qed.

Lemma insert_history_outcome p rows f d w r w' :
  ledger_is p rows w -> insert_history f d w = (r, w') ->
  (r = Ok tt /\ w_conn w' = Some p /\ history (w_disk w' p) = Some rows /\
   exists t, w_tx w' = Some t /\ history t = Some (rows ++ [(f, d)])) \/
  ((exists e, r = Raise e) /\ ledger_is p rows w').
Proof.
  intros (Hc & Hh & Ht) H. prim_cases H;
    unfold ledger_is, with_disk, with_conn, cur_db in *; simpl in *;
    repeat match goal with
    | H : w_tx ?w = _ |- context [w_tx ?w] => rewrite H
    | H : w_tx ?w = _, H' : context [w_tx ?w] |- _ => rewrite H in H'
    end; simpl in *.
  all: repeat match goal with H : Some _ = Some _ |- _ => injection H as H end; subst;
    try solve [congruence].
  all: try solve
    [ right; split; [eexists; reflexivity|]; repeat split; try assumption;
      intros ? Hd; injection Hd as <-; auto
    | left; split; [reflexivity|]; repeat split; try assumption;
      eexists; split; [reflexivity|]; simpl; f_equal; f_equal;
      try specialize (Ht _ eq_refl); congruence ].
Qed.

Lemma apply_migration_outcome ex fs f d p rows w r w' :
  settled p rows w -> apply_migration ex fs f d w = (r, w') ->
  (r = Ok true /\ settled p (rows ++ [(Path.basename f, d)]) w') \/
  (r = Ok false /\ settled p rows w').
Proof.
  intros HS H. pose proof (settled_ledger_is _ _ _ HS) as HL. destruct HS as (Hc & Hh & Ht).
  unfold apply_migration, try_except in H.
  cbv [bind conn_path get_world ret raise rollback print put_world commit] in H.
  rewrite Hc in H.
  destruct (fs_read fs f) as [c|].
  - destruct (run_statements ex (Path.basename f) (Str.split_on ";"%char c) w) as [r2 w2] eqn:E2.
    assert (HL2 : ledger_is p rows w2).
    { refine (preserves_run_statements _ _ _ _ _ _ _ _ _ HL E2);
        auto using ledger_is_logged, ledger_is_cursor_execute. }
    destruct r2 as [u|e].
    + destruct (insert_history (Path.basename f) d w2) as [[u'|e'] w3] eqn:E3.
      * destruct (insert_history_outcome _ _ _ _ _ _ _ HL2 E3)
          as [(_ & Hc3 & Hh3 & t & Ht3 & Hth) | ((e'' & He'') & _)]; [|discriminate].
        rewrite Hc3, Ht3 in H. inversion H; subst. left. split; [reflexivity|].
        unfold settled; simpl. rewrite String.eqb_refl. auto.
      * destruct (insert_history_outcome _ _ _ _ _ _ _ HL2 E3)
          as [(? & _) | (_ & (Hc3 & Hh3 & _))]; [discriminate|].
        rewrite Hc3 in H. inversion H; subst. right. split; [reflexivity|].
        unfold settled; simpl. auto.
    + destruct HL2 as (Hc2 & Hh2 & _). rewrite Hc2 in H. inversion H; subst.
      right. split; [reflexivity|]. unfold settled; simpl. auto.
  - rewrite Hc in H. inversion H; subst. right. split; [reflexivity|].
    unfold settled; simpl. auto.
Qed.

Lemma apply_all_outcome ex fs files d p rows w r w' :
  settled p rows w -> apply_all ex fs files d w = (r, w') ->
  r = Ok tt /\ exists sub, subseq sub files /\
    settled p (rows ++ map (fun f => (Path.basename f, d)) sub) w'.
Proof.
  revert rows w. induction files as [|f t IH]; intros rows w HS H.
  - cbn in H. inversion H; subst. split; [reflexivity|]. exists []. split; [constructor|].
    rewrite app_nil_r. exact HS.
  - unfold apply_all in H. cbn [for_each] in H. cbv [bind ret] in H.
    destruct (apply_migration ex fs f d w) as [r1 w1] eqn:E1.
    destruct (apply_migration_outcome _ _ _ _ _ _ _ _ _ HS E1)
      as [(-> & HS1) | (-> & HS1)].
    + destruct (IH _ _ HS1 H) as (Hr & sub & Hsub & HS2). split; [exact Hr|].
      exists (f :: sub). split; [constructor; exact Hsub|].
      rewrite <- app_assoc in HS2. exact HS2.
    + destruct (IH _ _ HS1 H) as (Hr & sub & Hsub & HS2). split; [exact Hr|].
      exists sub. split; [constructor; exact Hsub | exact HS2].
Qed.

(** The connection is open on [p], no transaction, no ledger table. *)
Definition cleared (p : string) (w : world) : Prop :=
  w_conn w = Some p /\ w_tx w = None /\ history (w_disk w p) = None.

Lemma is_dml_drop n : is_dml ("DROP TABLE IF EXISTS " ++ n ++ ";")%string = false.
Proof. reflexivity. Qed.

Lemma cleared_drop_table ex p n : preserves (cleared p) (drop_table ex n).
Proof.
  intros w r w' (Hc & Ht & Hh) H. prim_cases H;
    try (rewrite is_dml_drop in *; discriminate);
    unfold cleared, with_disk, with_conn, cur_db in *; simpl in *;
    repeat match goal with
    | H : Some _ = Some _ |- _ => injection H as H
    end; subst;
    repeat match goal with
    | H : w_tx ?w = _ |- context [w_tx ?w] => rewrite H
    | H : w_tx ?w = _, H' : context [w_tx ?w] |- _ => rewrite H in H'
    | H1 : w_conn ?w = Some ?a, H2 : w_conn ?w = Some ?b |- _ =>
        rewrite H1 in H2; injection H2 as H2; subst
    | |- context [String.eqb ?a ?a] => rewrite String.eqb_refl
    end; simpl in *; try congruence; auto.
Qed.

Lemma drop_ledger_clears ex p w r w' :
  w_conn w = Some p -> w_tx w = None -> drop_table ex "migration_history" w = (r, w') -> cleared p w'.
Proof.
  intros Hc Ht H. prim_cases H; rewrite ?String.eqb_refl in *; try discriminate;
    unfold cleared, with_disk, with_conn in *; simpl in *; try congruence.
  injection Heqo as <-. injection Hc as <-. rewrite String.eqb_refl. auto.
Qed.

Lemma drops_clear ex p w r w' :
  w_conn w = Some p -> w_tx w = None ->
  for_each (table_names (cur_db w p)) (fun t =>
    if negb (String.eqb t "sqlite_sequence") then drop_table ex t else ret tt) w = (Ok r, w') ->
  cleared p w'.
Proof.
  intros Hc Ht H.
  assert (Hrest : forall l, preserves (cleared p) (for_each l (fun t =>
    if negb (String.eqb t "sqlite_sequence") then drop_table ex t else ret tt))).
  { intros l. apply preserves_for_each. intros t.
    destruct (negb _); [apply cleared_drop_table | apply preserves_ret]. }
  unfold table_names in H. destruct (history (cur_db w p)) eqn:Eh.
  - cbn [app for_each] in H. cbv [bind] in H. simpl in H.
    destruct (drop_table ex "migration_history" w) as [r1 w1] eqn:E1.
    pose proof (drop_ledger_clears _ _ _ _ _ Hc Ht E1) as HC1.
    destruct r1 as [u|e]; [|discriminate].
    exact (Hrest _ _ _ _ HC1 H).
  - cbn [app] in H. refine (Hrest _ _ _ _ _ H).
    unfold cleared, cur_db in *. rewrite Ht in Eh. auto.
Qed.

Lemma setup_from_cleared p w r w' :
  cleared p w -> setup_migration_tracking w = (r, w') -> r = Ok tt /\ settled p [] w'.
Proof.
  intros (Hc & Ht & Hh) H. prim_cases H; unfold settled, cur_db, with_disk, with_conn in *;
    simpl in *; try congruence;
    repeat match goal with H : Some _ = Some _ |- _ => injection H as H end; subst;
    rewrite ?String.eqb_refl in *; try congruence.
  - rewrite Heqo2, Hh in Heqo0. discriminate.
  - auto.
Qed.

(** [reset_database] that returns leaves an empty ledger, committed. *)
Lemma reset_database_outcome ex p w w' u :
  w_conn w = Some p -> w_tx w = None -> reset_database ex w = (Ok u, w') -> settled p [] w'.
Proof.
  intros Hc Ht H. unfold reset_database in H. cbv [bind conn_path get_world ret raise] in H.
  rewrite Hc in H.
  match type of H with context [match for_each ?l ?f w with _ => _ end] =>
    destruct (for_each l f w) as [[u1|e1] w1] eqn:E1 end; [|discriminate].
  pose proof (drops_clear _ _ _ _ _ Hc Ht E1) as HC1.
  destruct (setup_migration_tracking w1) as [r2 w2] eqn:E2.
  destruct (setup_from_cleared _ _ _ _ HC1 E2) as (-> & (Hc2 & Hh2 & Ht2)).
  cbv [commit conn_path bind get_world ret print] in H. rewrite Hc2, Ht2 in H.
  inversion H; subst. unfold settled; simpl. auto.
Qed.

Lemma get_all_data_directories_result fs base w w' :
  fst (get_all_data_directories fs base w) = fst (get_all_data_directories fs base w').
Proof. unfold get_all_data_directories. destruct (fs_listdir fs base); reflexivity. Qed.

Lemma settled_same_db p rows w w' : settled p rows w -> same_db w w' -> settled p rows w'.
Proof. intros (Hc & Hh & Ht) (Hc' & Ht' & Hd'). unfold settled. rewrite Hc', Ht', Hd'. auto. Qed.

(** The step-0 directory [init] applies, if any. *)
Definition step0_of (dirs : list (Z * string)) : option string :=
  match find_step0 dirs with
  | Some d => if String.eqb d "" then None else Some d
  | None => None
  end.



(** ** C10: [reset] wipes before it checks for step 0 *)

(** Only step 1 is left on disk. *)
Definition fs_no_step0 : fsys :=
  Demo.fs_of [("data", ["1_seed"]); ("data/1_seed", ["c.sql"])] [("data/1_seed/c.sql", "")].

(** A customer and an order referencing it, and a ledger. *)
Definition db_with_orders : db :=
  mk_db [mk_obj OTable "customers" "customers" [] [["1"]];
         mk_obj OTable "orders" "orders" ["customers"] [["1"; "1"]]]
        (Some [("a.sql", "0_init")]).


(** [c] never returns [False]. *)
Definition returns_true (c : M bool) : Prop := forall w b w', c w = (Ok b, w') -> b = true.

Lemma returns_true_ret : returns_true (ret true).
Proof. intros w b w' H. inversion H; reflexivity. Qed.

Lemma returns_true_bind {A} (c : M A) (k : A -> M bool) :
  (forall a, returns_true (k a)) -> returns_true (bind c k).
Proof.
  intros Hk w b w'. unfold bind. destruct (c w) as [[a|e] w1]; [apply Hk | discriminate].
Qed.

Lemma init_returns_true ex fs db_path data_dir : returns_true (init ex fs db_path data_dir).
Proof. unfold init. repeat (apply returns_true_bind; intros ?). apply returns_true_ret. Qed.



(** * Further properties of the module *)

(** ** The applier *)





(** X3. [apply_migration] of a file that cannot be read returns [False],
    logs the error and discards the open transaction without touching any
    database file; with no connection it raises (the [rollback] of its
    error handler fails in turn) and changes nothing. *)
Theorem apply_migration_unreadable (ex : engine) (fs : fsys) (sql_file dir_prefix p : string) (w : world) :
  (w_conn w = Some p -> fs_read fs sql_file = None ->
   apply_migration ex fs sql_file dir_prefix w
     = (Ok false, logged (with_conn w (Some p) None) (MApplyError sql_file (OSExc sql_file)))) /\
  (w_conn w = None -> apply_migration ex fs sql_file dir_prefix w = (Raise NoneCursor, w)).
Proof.
  split.
  - intros Hc Hr. unfold apply_migration, try_except.
    cbv [bind conn_path get_world ret raise rollback print put_world]. rewrite Hc, Hr.
    repeat (cbv beta iota; rewrite Hc). reflexivity.
  - intros Hc. unfold apply_migration, try_except.
    cbv [bind conn_path get_world ret raise rollback print put_world]. rewrite Hc.
    repeat (cbv beta iota; rewrite Hc). reflexivity.
Qed.

Lemma apply_migration_unreadable_witness :
  apply_migration Demo.demo_engine fs_two_steps "data/0_init/gone.sql" "0_init"
    (Demo.connected (mk_db [] (Some [])))
  = (Ok false, logged (with_conn (Demo.connected (mk_db [] (Some []))) (Some "app.db") None)
                      (MApplyError "data/0_init/gone.sql" (OSExc "data/0_init/gone.sql"))).
Proof.
  exact (proj1 (apply_migration_unreadable Demo.demo_engine fs_two_steps "data/0_init/gone.sql"
                  "0_init" "app.db" (Demo.connected (mk_db [] (Some [])))) eq_refl eq_refl).
Defined.

Lemma run_statements_blank ex fn stmts w :
  Forall (fun s => Str.strip s = ""%string) stmts -> run_statements ex fn stmts w = (Ok tt, w).
Proof.
  intros HF. induction HF as [|s t Hs _ IH]; [reflexivity|].
  unfold run_statements in *. cbn [for_each]. cbv [bind] in *. rewrite Hs. simpl.
  exact IH.
Qed.

Lemma existsb_fst_absent (rows : list ledger_row) f :
  ~ In f (map fst rows) -> existsb (fun r => String.eqb (fst r) f) rows = false.
Proof.
  induction rows as [|[k v] t IH]; intros Hn; [reflexivity|]. simpl in *.
  destruct (String.eqb_spec k f); [tauto|]. simpl. apply IH. tauto.
Qed.

(** X4. A file whose statements are all blank (an empty file, or only
    semicolons and white space) is still recorded: with a committed ledger
    [rows] that does not hold its name, [apply_migration] returns [True] and
    the only change to the database file is the committed ledger row
    [(basename sql_file, dir_prefix)]; the user schema is untouched and no
    other database file is written. *)
Theorem apply_migration_blank_file (ex : engine) (fs : fsys) (sql_file dir_prefix p content : string)
    (rows : list ledger_row) (w : world) :
  settled p rows w -> fs_read fs sql_file = Some content ->
  Forall (fun s => Str.strip s = ""%string) (Str.split_on ";"%char content) ->
  ~ In (Path.basename sql_file) (map fst rows) ->
  exists w', apply_migration ex fs sql_file dir_prefix w = (Ok true, w') /\
    w_disk w' p = mk_db (schema (w_disk w p)) (Some (rows ++ [(Path.basename sql_file, dir_prefix)])) /\
    (forall q, q <> p -> w_disk w' q = w_disk w q) /\
    w_conn w' = Some p /\ w_tx w' = None.
Proof.
  intros (Hc & Hh & Ht) Hr HF Hn.
  destruct w as [c t dd dp disk out]; simpl in *; subst c t.
  eexists. unfold apply_migration, try_except.
  cbv [bind conn_path get_world ret raise]. simpl. rewrite Hr.
  rewrite (run_statements_blank _ _ _ _ HF).
  cbv [insert_history begin_if_needed commit write_db conn_path bind get_world put_world ret raise
       print cur_db with_conn with_disk logged]; simpl.
  repeat first [rewrite String.eqb_refl | rewrite Hh | rewrite (existsb_fst_absent _ _ Hn)
               | progress simpl].
  split; [reflexivity|]. simpl. rewrite String.eqb_refl.
  split; [reflexivity|]. split; [|split; reflexivity].
  intros q Hq. destruct (String.eqb_spec q p); [contradiction | reflexivity].
Qed.

Lemma apply_migration_blank_file_witness :
  exists w', apply_migration Demo.demo_engine fs_relabel "data/0_a/x.sql" "0_a"
               (Demo.connected (mk_db [] (Some []))) = (Ok true, w') /\
    w_disk w' "app.db" = mk_db [] (Some [("x.sql", "0_a")]).
Proof.
  destruct (apply_migration_blank_file Demo.demo_engine fs_relabel "data/0_a/x.sql" "0_a" "app.db" ""
              [] (Demo.connected (mk_db [] (Some []))))
    as (w' & H & Hd & _).
  - repeat split.
  - reflexivity.
  - vm_compute. repeat constructor.
  - simpl. tauto.
  - exists w'. split; [exact H | exact Hd].
Defined.

(** ** Atomicity of data-only files *)

Definition disk_is (D : string -> db) (w : world) : Prop := w_disk w = D.

Lemma disk_is_logged D w m : disk_is D w -> disk_is D (logged w m).
Proof. unfold disk_is; simpl; auto. Qed.

Lemma preserves_for_each_in (P : world -> Prop) {A} (l : list A) (f : A -> M unit) :
  (forall x, In x l -> preserves P (f x)) -> preserves P (for_each l f).
Proof.
  induction l as [|x t IH]; intros Hf; simpl.
  - apply preserves_ret.
  - apply preserves_bind; [apply Hf; left; reflexivity | intros _; apply IH; intros y Hy; apply Hf; right; exact Hy].
Qed.

Lemma disk_cursor_execute_dml D ex stmt :
  is_dml stmt = true -> preserves (disk_is D) (cursor_execute ex stmt).
Proof.
  intros Hd w r w' HP H. unfold disk_is in *. unfold cursor_execute in H. rewrite Hd in H.
  prim_cases H; simpl in *; try congruence.
Qed.

Lemma disk_insert_history D f d : preserves (disk_is D) (insert_history f d).
Proof. intros w r w' HP H. unfold disk_is in *. prim_cases H; simpl in *; congruence. Qed.

Lemma disk_rollback D : preserves (disk_is D) rollback.
Proof. intros w r w' HP H. unfold disk_is in *. prim_cases H; simpl in *; congruence. Qed.

Lemma disk_tolerate D fn e : preserves (disk_is D) (tolerate fn e).
Proof. apply preserves_tolerate, disk_is_logged. Qed.

Lemma disk_run_statements_dml D ex fn stmts :
  Forall (fun raw => Str.strip raw = ""%string \/ is_dml (Str.strip raw) = true) stmts ->
  preserves (disk_is D) (run_statements ex fn stmts).
Proof.
  intros HF. unfold run_statements. apply preserves_for_each_in. intros raw Hin.
  rewrite Forall_forall in HF. destruct (HF raw Hin) as [Hb|Hd]; cbv beta zeta.
  - rewrite Hb. apply preserves_ret.
  - destruct (String.eqb _ _); [apply preserves_ret|].
    apply preserves_try; [apply disk_cursor_execute_dml, Hd | intros e; apply disk_tolerate].
Qed.

(** The body of [apply_migration] either returns [True] or raises with no
    database file written, when each statement is blank or DML. *)
Lemma apply_migration_body_dml ex fs sql_file dir_prefix content w r w' :
  fs_read fs sql_file = Some content ->
  Forall (fun raw => Str.strip raw = ""%string \/ is_dml (Str.strip raw) = true)
         (Str.split_on ";"%char content) ->
  (_ <- conn_path ;;
   match fs_read fs sql_file with
   | None => raise (OSExc sql_file)
   | Some sql_content =>
       run_statements ex (Path.basename sql_file) (Str.split_on ";"%char sql_content) ;;
       insert_history (Path.basename sql_file) dir_prefix ;;
       commit ;;
       print (MApplied (Path.basename sql_file) dir_prefix) ;;
       ret true
   end) w = (r, w') ->
  r = Ok true \/ (exists e, r = Raise e) /\ w_disk w' = w_disk w.
Proof.
  intros Hr HF H. rewrite Hr in H.
  cbv [bind conn_path get_world ret raise] in H.
  destruct (w_conn w) as [p|]; [|inversion H; subst; right; eauto].
  destruct (run_statements ex (Path.basename sql_file) (Str.split_on ";"%char content) w)
    as [[u|e] w2] eqn:E2;
    pose proof (disk_run_statements_dml (w_disk w) _ _ _ HF w _ _ eq_refl E2) as H2;
    [|inversion H; subst; right; eauto].
  destruct (insert_history (Path.basename sql_file) dir_prefix w2) as [[u3|e3] w3] eqn:E3;
    pose proof (disk_insert_history (w_disk w) _ _ w2 _ _ H2 E3) as H3;
    [|inversion H; subst; right; eauto].
  destruct (commit w3) as [[u4|e4] w4] eqn:E4.
  - cbv [print] in H. inversion H; subst. left. reflexivity.
  - inversion H; subst. right. split; [eauto|]. unfold disk_is in H3. rewrite <- H3.
    prim_cases E4; reflexivity.
Qed.

(** X5. A file whose statements are all INSERT, UPDATE, DELETE or REPLACE
    statements (or blank) is applied atomically: when [apply_migration]
    returns [False], whatever the cause (a failing statement, a duplicate
    filename in the ledger), no database file has been changed and no
    transaction is left open. Each such statement runs inside the implicit
    transaction that [sqlite3] opens before it, which the error handler's
    [rollback] discards. *)
Theorem apply_migration_dml_atomic (ex : engine) (fs : fsys) (sql_file dir_prefix content : string)
    (w w' : world) :
  fs_read fs sql_file = Some content ->
  Forall (fun raw => Str.strip raw = ""%string \/ is_dml (Str.strip raw) = true)
         (Str.split_on ";"%char content) ->
  apply_migration ex fs sql_file dir_prefix w = (Ok false, w') ->
  w_disk w' = w_disk w /\ w_tx w' = None.
Proof.
  intros Hr HF H. unfold apply_migration, try_except in H.
  match type of H with context [match ?c w with _ => _ end] =>
    destruct (c w) as [rb wb] eqn:Eb end.
  destruct (apply_migration_body_dml ex fs sql_file dir_prefix content w rb wb Hr HF Eb)
    as [->|((e & ->) & Hd)].
  - discriminate.
  -     cbv [bind rollback conn_path get_world put_world print ret raise] in H.
    destruct (w_conn wb); inversion H; subst. simpl. split; [exact Hd | reflexivity].
Qed.

(** A table [customers] without rows and an empty ledger. *)
Definition db_customers : db :=
  mk_db [mk_obj OTable "customers" "customers" [] []] (Some []).

(** A data-only file whose second insert names a missing table. *)
Definition fs_dml_fail : fsys :=
  Demo.fs_of [("data", ["0_init"]); ("data/0_init", ["d.sql"])]
    [("data/0_init/d.sql",
      "INSERT INTO customers (id) VALUES (1); INSERT INTO orders (id, customer_id) VALUES (1, 1);")].

Lemma apply_migration_dml_atomic_witness :
  let r := apply_migration Demo.demo_engine fs_dml_fail "data/0_init/d.sql" "0_init"
             (Demo.connected db_customers) in
  fst r = Ok false /\ w_disk (snd r) = w_disk (Demo.connected db_customers) /\ w_tx (snd r) = None.
Proof.
  cbv zeta. split; [vm_compute; reflexivity|].
  apply (apply_migration_dml_atomic Demo.demo_engine fs_dml_fail "data/0_init/d.sql" "0_init"
           "INSERT INTO customers (id) VALUES (1); INSERT INTO orders (id, customer_id) VALUES (1, 1);").
  - reflexivity.
  - vm_compute. repeat (apply Forall_cons; [first [left; reflexivity | right; reflexivity]|]).
    apply Forall_nil.
  - vm_compute. reflexivity.
Defined.

(** ** The file lister *)

Lemma string_leb_total (x y : string) : String.leb x y = false -> String.leb y x = true.
Proof. intros H. destruct (String.leb_total x y); congruence. Qed.


(** A directory with two [.sql] files out of order, a hidden one and a text file. *)
Definition fs_listing : fsys :=
  Demo.fs_of [("d", ["b.sql"; ".old.sql"; "a.sql"; "notes.txt"])] [].


(** ** The reporter *)

(** X7. [status] is read-only: whatever it returns or raises, the
    connection, the open transaction (if any), every database file and the
    module's paths are as before; only log lines are added. With no
    connection it returns [False]. *)
Theorem status_read_only (fs : fsys) (w : world) :
  same_db w (snd (status fs w)) /\
  w_data_dir (snd (status fs w)) = w_data_dir w /\ w_db_path (snd (status fs w)) = w_db_path w /\
  (w_conn w = None -> fst (status fs w) = Ok None).
Proof.
  split; [|split; [|split]].
  1-3: pose (P := fun w0 => same_db w w0 /\ w_data_dir w0 = w_data_dir w /\ w_db_path w0 = w_db_path w);
    assert (HP : P (snd (status fs w)));
    [ apply (preserves_status P) with (fs := fs) (w := w) (r := fst (status fs w));
      [ intros w0 m (H1 & H2 & H3); split; [exact (same_db_trans _ _ _ H1 (same_db_logged _ _))|auto]
      | split; [apply same_db_refl | auto]
      | destruct (status fs w); reflexivity ]
    | destruct HP as (? & ? & ?); assumption ].
  intros Hc. unfold status. cbv [bind get_world print ret]. rewrite Hc. reflexivity.
Qed.

(** X8. With the connection open on a database that has no
    [migration_history] table (as a failed [reset] can leave it) and at
    least one step directory, [status] and [set] raise "no such table:
    migration_history" instead of returning; [set] does so whatever the
    target step, before checking it. Neither changes anything. *)
Theorem status_set_without_ledger (ex : engine) (fs : fsys) (w w1 : world) (p : string)
    (dirs : list (Z * string)) (k : Z) :
  w_conn w = Some p -> history (cur_db w p) = None ->
  get_all_data_directories fs (w_data_dir w) w = (Ok dirs, w1) -> dirs <> [] ->
  status fs w = (Raise no_such_ledger, w1) /\ set ex fs k w = (Raise no_such_ledger, w1).
Proof.
  intros Hc Hh Hg Hne.
  destruct (get_all_data_directories_frame _ _ _ _ _ Hg) as ((Hc1 & Ht1 & Hd1) & _).
  assert (Hh1 : history (cur_db w1 p) = None) by (unfold cur_db in *; rewrite Ht1, Hd1; exact Hh).
  destruct dirs as [|d ds]; [contradiction|].
  unfold status, set. cbv [bind get_world]. rewrite Hc, Hg.
  unfold get_applied_migrations. cbv [bind conn_path get_world ret raise].
  rewrite Hc1, Hc. rewrite Hh1. split; reflexivity.
Qed.

Lemma status_set_without_ledger_witness :
  status fs_two_steps (Demo.connected (mk_db [] None))
    = (Raise no_such_ledger, Demo.connected (mk_db [] None)) /\
  set Demo.demo_engine fs_two_steps 7 (Demo.connected (mk_db [] None))
    = (Raise no_such_ledger, Demo.connected (mk_db [] None)).
Proof.
  apply (status_set_without_ledger Demo.demo_engine fs_two_steps (Demo.connected (mk_db [] None))
           (Demo.connected (mk_db [] None)) "app.db" [(0%Z, "data/0_init"); (1%Z, "data/1_seed")] 7).
  - reflexivity.
  - reflexivity.
  - vm_compute. reflexivity.
  - discriminate.
Defined.

(** ** The ledger table *)

(** X9. [setup_migration_tracking] on a connection open on [p] returns
    normally and commits: afterwards no transaction is open and the file [p]
    holds the database the connection saw (an open transaction's work
    included) with its ledger kept as it was, or created empty when there
    was none; no other database file is written and the connection is
    unchanged. *)
Theorem setup_migration_tracking_commits (w w' : world) (p : string) (r : result unit) :
  w_conn w = Some p -> setup_migration_tracking w = (r, w') ->
  r = Ok tt /\ w_conn w' = Some p /\ w_tx w' = None /\
  w_disk w' p = mk_db (schema (cur_db w p))
                      (Some (match history (cur_db w p) with Some rows => rows | None => [] end)) /\
  (forall q, q <> p -> w_disk w' q = w_disk w q).
Proof.
  intros Hc H. prim_cases H; unfold cur_db, with_disk, with_conn in *; simpl in *;
    repeat match goal with
    | H : Some _ = Some _ |- _ => injection H as H
    | H : w_tx ?w = _ |- context [w_tx ?w] => rewrite H
    | H : w_tx ?w = _, H' : context [w_tx ?w] |- _ => rewrite H in H'
    end; subst; simpl in *; try congruence.
  all: repeat split; try congruence.
  all: repeat match goal with
    | H1 : w_conn ?w = Some ?a, H2 : w_conn ?w = Some ?b |- _ =>
        rewrite H1 in H2; injection H2 as H2; subst
    end.
  all: try match goal with |- forall q, q <> ?a -> _ =>
    intros q Hq; destruct (String.eqb_spec q a); [contradiction | reflexivity] end.
  all: rewrite ?String.eqb_refl;
    repeat match goal with H : history ?d = _ |- context [history ?d] => rewrite H end;
    try reflexivity.
  all: match goal with |- ?d = {| schema := schema ?d; history := _ |} =>
    destruct d; simpl in *; congruence end.
Qed.

Lemma setup_migration_tracking_commits_witness :
  w_disk (snd (setup_migration_tracking (Demo.connected db_customers))) "app.db" = db_customers.
Proof.
  destruct (setup_migration_tracking_commits (Demo.connected db_customers)
              (snd (setup_migration_tracking (Demo.connected db_customers))) "app.db"
              (fst (setup_migration_tracking (Demo.connected db_customers)))
              eq_refl (surjective_pairing _)) as (_ & _ & _ & Hd & _).
  rewrite Hd. reflexivity.
Defined.

Lemma status_read_only_witness :
  fst (status fs_two_steps Demo.fresh) = Ok None /\ same_db Demo.fresh (snd (status fs_two_steps Demo.fresh)).
Proof.
  destruct (status_read_only fs_two_steps Demo.fresh) as (Hs & _ & _ & Hn).
  split; [exact (Hn eq_refl) | exact Hs].
Defined.

(** ** Closing the connection *)

(** X10. [close] with a connection open returns [True] and discards the open
    transaction without committing it; with none it returns [False] and
    changes nothing. Either way no database file is written, and afterwards
    [set], [status] and [reset] return [False] with only a log line, until
    the next [init]. *)
Theorem close_ends_session (ex : engine) (fs : fsys) (k : Z) (w : world) :
  (w_conn w <> None -> fst (close w) = Ok true /\ w_tx (snd (close w)) = None) /\
  (w_conn w = None -> close w = (Ok false, w)) /\
  w_conn (snd (close w)) = None /\ w_disk (snd (close w)) = w_disk w /\
  set ex fs k (snd (close w)) = (Ok false, logged (snd (close w)) MNotInitialized) /\
  status fs (snd (close w)) = (Ok None, logged (snd (close w)) MNotInitialized) /\
  reset ex fs (snd (close w)) = (Ok false, logged (snd (close w)) MNotInitialized).
Proof.
  unfold close. cbv [bind get_world put_world ret].
  destruct (w_conn w) eqn:Hc.
  - split; [intros _; split; reflexivity|]. split; [discriminate|].
    repeat split.
  - split; [intros H; contradiction|]. split; [reflexivity|].
    split; [exact Hc|]. split; [reflexivity|].
    unfold set, status, reset. cbv [bind get_world print ret snd]. rewrite Hc. repeat split.
Qed.

Lemma close_ends_session_witness :
  fst (close (Demo.connected db_customers)) = Ok true /\
  set Demo.demo_engine fs_two_steps 0 (snd (close (Demo.connected db_customers)))
    = (Ok false, logged (snd (close (Demo.connected db_customers))) MNotInitialized).
Proof.
  destruct (close_ends_session Demo.demo_engine fs_two_steps 0 (Demo.connected db_customers))
    as (Ho & _ & _ & _ & Hs & _).
  split; [exact (proj1 (Ho ltac:(discriminate))) | exact Hs].
Defined.

(** ** Other database files *)

(** [reset_database] and the part of [init] after the connection is opened
    keep every invariant that the primitives keep. *)
Section InitParts.
Variable P : world -> Prop.
Hypothesis P_logged : forall w m, P w -> P (logged w m).
Variable ex : engine.
Variable fs : fsys.
Hypothesis H_exec : forall stmt, preserves P (cursor_execute ex stmt).
Hypothesis H_insert : forall f d, preserves P (insert_history f d).
Hypothesis H_commit : preserves P commit.
Hypothesis H_rollback : preserves P rollback.
Hypothesis H_drop : forall n, preserves P (drop_table ex n).
Hypothesis H_setup : preserves P setup_migration_tracking.

Lemma preserves_reset_database : preserves P (reset_database ex).
Proof.
  unfold reset_database.
  apply preserves_bind; [apply preserves_conn_path | intros p0].
  apply preserves_bind; [apply preserves_get_world | intros w0].
  apply preserves_bind.
  { apply preserves_for_each. intros t.
    destruct (negb _); [apply H_drop | apply preserves_ret]. }
  intros _. apply preserves_bind; [apply H_setup | intros _].
  apply preserves_bind; [apply H_commit | intros _].
  apply preserves_print, P_logged.
Qed.

Lemma preserves_init_rest (data_dir : string) :
  preserves P
    (reset_database ex ;;
     data_dirs <- get_all_data_directories fs data_dir ;;
     match find_step0 data_dirs with
     | Some step0_dir =>
         if String.eqb step0_dir "" then print MNoStep0Init
         else
           let dir_name := Path.basename step0_dir in
           print (MInitStep0 dir_name) ;;
           apply_all ex fs (get_sql_files_in_dir fs step0_dir) dir_name
     | None => print MNoStep0Init
     end ;;
     ret true).
Proof.
  apply preserves_bind; [apply preserves_reset_database | intros _].
  apply preserves_bind; [apply preserves_get_all_data_directories; exact P_logged | intros dirs].
  apply preserves_bind; [|intros _; apply preserves_ret].
  destruct (find_step0 dirs) as [d|]; [destruct (String.eqb d "")|].
  - apply preserves_print; exact P_logged.
  - apply preserves_bind; [apply preserves_print; exact P_logged | intros _].
    apply preserves_apply_all; auto.
  - apply preserves_print; exact P_logged.
Qed.
End InitParts.

(** The connection is open on [p] and the file [q] holds [D]. *)
Definition keeps_other (p q : string) (D : db) (w : world) : Prop :=
  w_conn w = Some p /\ w_disk w q = D.

Section OtherFiles.
Variables p q : string.
Hypothesis Hpq : q <> p.
Variable D : db.

Lemma keeps_other_logged w m : keeps_other p q D w -> keeps_other p q D (logged w m).
Proof. unfold keeps_other; simpl; auto. Qed.

Ltac other_prim :=
  intros w r w' (Hc & Hd) H; unfold keeps_other in *; prim_cases H;
  unfold with_conn, with_disk in *; simpl in *;
  repeat match goal with
  | H : Some _ = Some _ |- _ => injection H as H
  | H1 : w_conn ?w = Some ?a, H2 : w_conn ?w = Some ?b |- _ =>
      rewrite H1 in H2; injection H2 as H2
  end; subst;
  try (split; [congruence|]);
  try match goal with |- (if String.eqb q ?a then _ else _) = _ =>
    destruct (String.eqb_spec q a); [subst; contradiction | ] end;
  try reflexivity; try assumption.

Lemma keeps_other_cursor_execute ex stmt : preserves (keeps_other p q D) (cursor_execute ex stmt).
Proof. other_prim. Qed.

Lemma keeps_other_insert_history f d : preserves (keeps_other p q D) (insert_history f d).
Proof. other_prim. Qed.

Lemma keeps_other_commit : preserves (keeps_other p q D) commit.
Proof. other_prim. Qed.

Lemma keeps_other_rollback : preserves (keeps_other p q D) rollback.
Proof. other_prim. Qed.

Lemma keeps_other_drop_table ex n : preserves (keeps_other p q D) (drop_table ex n).
Proof. other_prim. Qed.

Lemma keeps_other_setup : preserves (keeps_other p q D) setup_migration_tracking.
Proof. other_prim. Qed.

Lemma keeps_other_reset_database ex : preserves (keeps_other p q D) (reset_database ex).
Proof.
  apply preserves_reset_database; auto using keeps_other_logged, keeps_other_commit,
    keeps_other_drop_table, keeps_other_setup.
Qed.

Create HintDb other.
#[local] Hint Resolve keeps_other_logged keeps_other_cursor_execute keeps_other_insert_history
  keeps_other_commit keeps_other_rollback keeps_other_reset_database : other.

Lemma keeps_other_apply_migration ex fs f d : preserves (keeps_other p q D) (apply_migration ex fs f d).
Proof. apply preserves_apply_migration; auto with other. Qed.

Lemma keeps_other_set ex fs k : preserves (keeps_other p q D) (set ex fs k).
Proof. apply preserves_set; auto with other. Qed.

Lemma keeps_other_reset ex fs : preserves (keeps_other p q D) (reset ex fs).
Proof. apply preserves_reset; auto with other. Qed.

End OtherFiles.



(** ** The step controller's result *)

(** X12. With the connection open and its ledger table present, [set k]
    never raises, whatever the engine and the files do: once the step
    directories are listed it returns [True] exactly when [k] is one of
    their step numbers, and the connection stays open. *)
Theorem set_result_with_ledger (ex : engine) (fs : fsys) (k : Z) (w w1 : world) (p : string)
    (rows : list ledger_row) (dirs : list (Z * string)) :
  w_conn w = Some p -> history (cur_db w p) = Some rows ->
  get_all_data_directories fs (w_data_dir w) w = (Ok dirs, w1) ->
  exists b w', set ex fs k w = (Ok b, w') /\ (b = true <-> In k (map fst dirs)) /\ w_conn w' = Some p.
Proof.
  intros Hc Hh Hg.
  destruct (get_all_data_directories_frame _ _ _ _ _ Hg) as ((Hc1 & Ht1 & Hd1) & _).
  assert (Hh1 : history (cur_db w1 p) = Some rows) by (unfold cur_db in *; rewrite Ht1, Hd1; exact Hh).
  unfold set. cbv [bind get_world]. rewrite Hc, Hg.
  destruct dirs as [|d ds].
  - cbv [print ret]. do 2 eexists. split; [reflexivity|]. simpl. split; [split; [discriminate | tauto]|].
    rewrite Hc1. exact Hc.
  - assert (Ha : get_applied_migrations w1 = (Ok rows, w1)).
    { unfold get_applied_migrations. cbv [bind conn_path get_world ret raise].
      rewrite Hc1, Hc, Hh1. reflexivity. }
    rewrite Ha. cbv beta iota.
    destruct (existsb (Z.eqb k) (map fst (d :: ds))) eqn:Ee; cbn [negb]; cbv beta iota.
    + destruct (set_loop ex fs (applied_files_of rows) k (d :: ds) w1) as [r2 w2] eqn:E2.
      assert (HC1 : conn_is p w1) by (unfold conn_is; rewrite Hc1; exact Hc).
      destruct (set_loop_no_raise p ex fs (applied_files_of rows) k (d :: ds) w1 r2 w2 HC1 E2)
        as (u & ->).
      pose proof (preserves_set_loop (conn_is p) (conn_is_logged p) ex fs
                    (conn_cursor_execute p ex) (conn_insert_history p) (conn_commit p)
                    (conn_rollback p) (applied_files_of rows) k (d :: ds) w1 _ w2 HC1 E2) as HC2.
      cbv [ret]. do 2 eexists. split; [reflexivity|]. split; [|exact HC2].
      split; [intros _|reflexivity].
      apply existsb_exists in Ee as (x & Hx & Hkx). apply Z.eqb_eq in Hkx. subst. exact Hx.
    + cbv [print ret]. do 2 eexists. split; [reflexivity|]. split.
      * split; [discriminate|]. intros Hin. rewrite <- Ee. apply existsb_exists.
        exists k. split; [exact Hin | apply Z.eqb_refl].
      * simpl. rewrite Hc1. exact Hc.
Qed.

Lemma set_result_with_ledger_witness :
  exists b w', set Demo.demo_engine fs_two_steps 5 (Demo.connected (mk_db [] (Some []))) = (Ok b, w') /\
    (b = true <-> In 5%Z [0%Z; 1%Z]) /\ w_conn w' = Some "app.db".
Proof.
  apply (set_result_with_ledger Demo.demo_engine fs_two_steps 5 (Demo.connected (mk_db [] (Some [])))
           (Demo.connected (mk_db [] (Some []))) "app.db" [] [(0%Z, "data/0_init"); (1%Z, "data/1_seed")]).
  - reflexivity.
  - reflexivity.
  - vm_compute. reflexivity.
Defined.



(** X14. Only a missing data directory is caught: when listing it fails
    otherwise (it is a file, or unreadable), [set], [status] and [reset]
    with a connection open raise that [OSError] and change nothing, and
    [init] raises as well instead of returning [True]. *)
Theorem unlistable_data_dir_raises (ex : engine) (fs : fsys) (k : Z) (w : world) :
  (fs_listdir fs (w_data_dir w) = LOSError -> w_conn w <> None ->
   set ex fs k w = (Raise (OSExc (w_data_dir w)), w) /\
   status fs w = (Raise (OSExc (w_data_dir w)), w) /\
   reset ex fs w = (Raise (OSExc (w_data_dir w)), w)) /\
  (forall db_path data_dir, fs_listdir fs data_dir = LOSError ->
   exists e w', init ex fs db_path data_dir w = (Raise e, w')).
Proof.
  split.
  - intros Hl Hc. unfold set, status, reset, get_all_data_directories.
    cbv [bind get_world]. destruct (w_conn w); [|contradiction].
    rewrite Hl. cbv [raise]. repeat split.
  - intros db_path data_dir Hl. unfold init. cbv [bind get_world put_world].
    destruct (reset_database ex _) as [[u|e] w1]; [|eauto].
    unfold get_all_data_directories. rewrite Hl. cbv [raise]. eauto.
Qed.

(** A data directory that is a file. *)
Definition fs_data_file : fsys :=
  mk_fs (fun _ => LOSError) (fun _ => false) (fun _ => None).

Lemma unlistable_data_dir_raises_witness :
  set Demo.demo_engine fs_data_file 0 (Demo.connected db_customers)
    = (Raise (OSExc "data"), Demo.connected db_customers) /\
  exists e w', init Demo.demo_engine fs_data_file "app.db" "data" (Demo.connected db_customers) = (Raise e, w').
Proof.
  destruct (unlistable_data_dir_raises Demo.demo_engine fs_data_file 0 (Demo.connected db_customers))
    as (H1 & H2).
  split.
  - exact (proj1 (H1 eq_refl ltac:(discriminate))).
  - exact (H2 "app.db" "data" eq_refl).
Defined.

(** ** The session [init] opens *)

(** The connection is open on [db_path] and the module's paths are
    [db_path] and [data_dir]. *)
Definition session_is (db_path data_dir : string) (w : world) : Prop :=
  w_conn w = Some db_path /\ w_db_path w = db_path /\ w_data_dir w = data_dir.

Ltac session_prim :=
  intros w r w' (H1 & H2 & H3) H; unfold session_is; prim_cases H; simpl in *;
  repeat split; congruence.

Lemma session_is_logged a b w m : session_is a b w -> session_is a b (logged w m).
Proof. unfold session_is; simpl; auto. Qed.

Lemma session_cursor_execute a b ex stmt : preserves (session_is a b) (cursor_execute ex stmt).
Proof. session_prim. Qed.

Lemma session_insert_history a b f d : preserves (session_is a b) (insert_history f d).
Proof. session_prim. Qed.

Lemma session_commit a b : preserves (session_is a b) commit.
Proof. session_prim. Qed.

Lemma session_rollback a b : preserves (session_is a b) rollback.
Proof. session_prim. Qed.

Lemma session_drop_table a b ex n : preserves (session_is a b) (drop_table ex n).
Proof. session_prim. Qed.

Lemma session_setup a b : preserves (session_is a b) setup_migration_tracking.
Proof. session_prim. Qed.


(** ** [set] over an up-to-date ledger *)

Lemma set_files_noop ex fs af d files w0 r w1 :
  (forall f, In f files -> pending af (Path.basename f) d = false) ->
  set_files ex fs af d files w0 = (r, w1) -> r = Ok tt /\ same_db w0 w1.
Proof.
  revert w0. induction files as [|f t IH]; intros w0 Hp H.
  - cbn in H. inversion H; subst. split; [reflexivity | apply same_db_refl].
  - unfold set_files in H. cbn [for_each] in H. cbv beta zeta in H.
    rewrite (Hp f (or_introl eq_refl)) in H. cbv [bind print] in H.
    destruct (IH (logged w0 (MSkipping (Path.basename f)))
                (fun g Hg => Hp g (or_intror Hg)) H) as [-> Hs].
    split; [reflexivity | exact (same_db_trans _ _ _ (same_db_logged _ _) Hs)].
Qed.

Lemma set_loop_noop ex fs af k dirs w0 r w1 :
  (forall n dp, In (n, dp) dirs -> (n <= k)%Z ->
     forall f, In f (get_sql_files_in_dir fs dp) -> pending af (Path.basename f) (Path.basename dp) = false) ->
  set_loop ex fs af k dirs w0 = (r, w1) -> r = Ok tt /\ same_db w0 w1.
Proof.
  revert w0. induction dirs as [|[n dp] t IH]; intros w0 Hp H.
  - cbn in H. inversion H; subst. split; [reflexivity | apply same_db_refl].
  - cbn [set_loop] in H. cbv beta zeta in H.
    assert (Hhead : forall w2 r2 w3,
      (if (n <=? k)%Z then
         print (MProcessing (Path.basename dp)) ;;
         set_files ex fs af (Path.basename dp) (get_sql_files_in_dir fs dp)
       else ret tt) w2 = (r2, w3) -> r2 = Ok tt /\ same_db w2 w3).
    { intros w2 r2 w3 H2. destruct (n <=? k)%Z eqn:Hle.
      - cbv [bind print] in H2.
        destruct (set_files_noop ex fs af (Path.basename dp) (get_sql_files_in_dir fs dp)
                    _ _ _ (Hp n dp (or_introl eq_refl) (proj1 (Z.leb_le _ _) Hle)) H2) as [-> Hs].
        split; [reflexivity | exact (same_db_trans _ _ _ (same_db_logged _ _) Hs)].
      - cbv [ret] in H2. inversion H2; subst. split; [reflexivity | apply same_db_refl]. }
    unfold bind at 1 in H.
    match type of H with context [match ?c w0 with _ => _ end] =>
      destruct (c w0) as [r2 w2] eqn:E2 end.
    destruct (Hhead _ _ _ E2) as [-> Hs2].
    destruct (n =? k)%Z.
    + cbv [ret] in H. inversion H; subst. split; [reflexivity | exact Hs2].
    + destruct (IH w2 (fun n' dp' Hin => Hp n' dp' (or_intror Hin)) H) as [-> Hs3].
      split; [reflexivity | exact (same_db_trans _ _ _ Hs2 Hs3)].
Qed.



(** ** Wiping and replaying *)

(** X17. [reset_database] on a connection open on [p] with no transaction,
    when it returns (every [DROP TABLE] succeeded), leaves the ledger table
    present, empty and committed, whatever rows it held before, and no
    transaction open. *)
Theorem reset_database_empties_ledger (ex : engine) (p : string) (w w' : world) (u : unit) :
  w_conn w = Some p -> w_tx w = None -> reset_database ex w = (Ok u, w') ->
  settled p [] w'.
Proof. apply reset_database_outcome. Qed.

Lemma reset_database_empties_ledger_witness :
  settled "app.db" [] (snd (reset_database Demo.demo_engine
                              (Demo.connected (mk_db [mk_obj OTable "customers" "customers" [] [["1"]]]
                                                     (Some [("a.sql", "0_init")]))))).
Proof.
  apply (reset_database_empties_ledger Demo.demo_engine "app.db"
           (Demo.connected (mk_db [mk_obj OTable "customers" "customers" [] [["1"]]]
                                  (Some [("a.sql", "0_init")]))) _ tt).
  - reflexivity.
  - reflexivity.
  - vm_compute. reflexivity.
Defined.



(** ** No step directory *)

(** X19. With a connection open but no step directory found (the data
    directory is missing, or holds no directory named [<digits>_...]),
    [set], [status] and [reset] return [False] and change nothing but the
    log: in particular [reset] does not wipe the database in that case. *)
Theorem no_step_dirs_refused (ex : engine) (fs : fsys) (k : Z) (w w1 : world) :
  w_conn w <> None -> get_all_data_directories fs (w_data_dir w) w = (Ok [], w1) ->
  same_db w w1 /\
  set ex fs k w = (Ok false, logged w1 (MNoDirs (w_data_dir w))) /\
  status fs w = (Ok None, logged w1 (MNoDirs (w_data_dir w))) /\
  reset ex fs w = (Ok false, logged w1 (MNoDirs (w_data_dir w))).
Proof.
  intros Hc Hg. destruct (get_all_data_directories_frame _ _ _ _ _ Hg) as (Hs & _).
  split; [exact Hs|].
  unfold set, status, reset. cbv [bind get_world].
  destruct (w_conn w); [|contradiction]. rewrite Hg. cbv [print ret]. repeat split.
Qed.

Lemma no_step_dirs_refused_witness :
  reset Demo.demo_engine (Demo.fs_of [] []) (Demo.connected db_with_orders)
    = (Ok false, logged (logged (Demo.connected db_with_orders) (MBaseNotFound "data")) (MNoDirs "data")).
Proof.
  exact (proj2 (proj2 (proj2 (no_step_dirs_refused Demo.demo_engine (Demo.fs_of [] []) 0
    (Demo.connected db_with_orders) (logged (Demo.connected db_with_orders) (MBaseNotFound "data"))
    ltac:(discriminate) eq_refl)))).
Defined.

(** ** The counts of the status report *)

(** The sum of the [applied] counts of a report's directories. *)
Definition report_applied_sum (r : status_report) : nat :=
  list_sum (map (fun e => fst (snd e)) (directories r)).

Lemma dict_set_keys {V} (acc : list (string * V)) k v k' :
  In k' (map fst (dict_set acc k v)) <-> k' = k \/ In k' (map fst acc).
Proof.
  induction acc as [|[k0 v0] t IH]; simpl; [intuition congruence|].
  destruct (String.eqb_spec k k0) as [->|Hne]; simpl; [intuition congruence|].
  rewrite IH. intuition congruence.
Qed.

Lemma dict_set_nodup {V} (acc : list (string * V)) k v :
  NoDup (map fst acc) -> NoDup (map fst (dict_set acc k v)).
Proof.
  induction acc as [|[k0 v0] t IH]; intros Hnd; simpl; [repeat constructor; simpl; tauto|].
  simpl in Hnd. inversion Hnd as [|? ? Hn Hnd']; subst.
  destruct (String.eqb_spec k k0); simpl; constructor; try assumption.
  - rewrite dict_set_keys. intros [->|Hin]; [contradiction | exact (Hn Hin)].
  - exact (IH Hnd').
Qed.

Lemma dict_set_forall {V} (P : string -> V -> Prop) (acc : list (string * V)) k v :
  Forall (fun e => P (fst e) (snd e)) acc -> P k v ->
  Forall (fun e => P (fst e) (snd e)) (dict_set acc k v).
Proof.
  induction acc as [|[k0 v0] t IH]; intros HF Hp; simpl; [constructor; [exact Hp | constructor]|].
  inversion HF as [|? ? H0 Ht]; subst.
  destruct (String.eqb_spec k k0) as [->|_]; constructor; auto.
Qed.

Lemma dir_report_shape fs rows dirs acc :
  NoDup (map fst acc) -> Forall (fun e => fst (snd e) = count_label rows (fst e)) acc ->
  let res := fold_left (fun acc (x : Z * string) =>
               let dir_name := Path.basename (snd x) in
               dict_set acc dir_name (count_label rows dir_name,
                                      List.length (get_sql_files_in_dir fs (snd x))))
            dirs acc in
  NoDup (map fst res) /\ Forall (fun e => fst (snd e) = count_label rows (fst e)) res.
Proof.
  revert acc. induction dirs as [|x t IH]; intros acc Hnd HF; simpl; [auto|].
  apply IH.
  - apply dict_set_nodup, Hnd.
  - apply (dict_set_forall (fun n e => fst e = count_label rows n)); [exact HF | reflexivity].
Qed.

Lemma count_label_cons r rows n :
  count_label (r :: rows) n = (if String.eqb (snd r) n then 1 else 0) + count_label rows n.
Proof. unfold count_label. simpl. destruct (String.eqb (snd r) n); reflexivity. Qed.

Lemma sum_indicator_absent x (names : list string) :
  ~ In x names -> list_sum (map (fun n => if String.eqb x n then 1 else 0) names) = 0.
Proof.
  induction names as [|n t IH]; intros Hn; simpl; [reflexivity|].
  destruct (String.eqb_spec x n) as [->|_]; [exfalso; apply Hn; left; reflexivity|].
  apply IH. intros Hin. apply Hn. right. exact Hin.
Qed.

Lemma sum_indicator_nodup x (names : list string) :
  NoDup names -> list_sum (map (fun n => if String.eqb x n then 1 else 0) names) <= 1.
Proof.
  induction 1 as [|n t Hn Hnd IH]; simpl; [lia|].
  destruct (String.eqb_spec x n) as [->|_]; [rewrite sum_indicator_absent by exact Hn|]; lia.
Qed.

Lemma list_sum_map_add (f g : string -> nat) (l : list string) :
  list_sum (map (fun n => f n + g n) l) = list_sum (map f l) + list_sum (map g l).
Proof. induction l as [|x t IH]; simpl; [reflexivity|]. rewrite IH. lia. Qed.

Lemma sum_count_labels (rows : list ledger_row) (names : list string) :
  NoDup names -> list_sum (map (count_label rows) names) <= List.length rows.
Proof.
  intros Hnd. induction rows as [|r t IH].
  - clear Hnd. induction names as [|n ns IHn]; simpl; [lia|]. exact IHn.
  - rewrite (map_ext _ _ (count_label_cons r t)), list_sum_map_add.
    pose proof (sum_indicator_nodup (snd r) names Hnd). simpl. lia.
Qed.

Lemma sum_matches_counts rows (entries : list (string * (nat * nat))) :
  Forall (fun e => fst (snd e) = count_label rows (fst e)) entries ->
  list_sum (map (fun e => fst (snd e)) entries) = list_sum (map (count_label rows) (map fst entries)).
Proof.
  induction 1 as [|e t He _ IH]; simpl; [reflexivity|]. rewrite He, IH. reflexivity.
Qed.

(** X20. Every report [status] returns names each directory once, and its
    [applied] counts add up to at most [total_applied]: each ledger row is
    counted for at most one directory, and rows whose label names no
    current directory are counted for none. *)
Theorem status_report_counts_bounded (fs : fsys) (w w' : world) (r : status_report) :
  status fs w = (Ok (Some r), w') ->
  NoDup (map fst (directories r)) /\ report_applied_sum r <= total_applied r.
Proof.
  intros H. unfold status in H. cbv [bind get_world] in H.
  destruct (w_conn w) as [p|]; [|cbv [print ret] in H; discriminate].
  destruct (get_all_data_directories fs (w_data_dir w) w) as [[dirs|e] w1]; [|discriminate].
  destruct dirs as [|d ds]; [cbv [print ret] in H; discriminate|].
  destruct (get_applied_migrations w1) as [[rows|e] w2]; [|discriminate].
  cbv [print] in H.
  destruct (status_dirs_spec fs rows (d :: ds) [] (logged w2 (MAppliedCount (List.length rows))))
    as (w3 & Hst & _).
  rewrite Hst in H. cbv [ret] in H. inversion H; subst. clear H Hst.
  destruct (dir_report_shape fs rows (d :: ds) [] ltac:(constructor) ltac:(constructor))
    as (Hnd & HF).
  cbn [directories total_applied]. split; [exact Hnd|].
  unfold report_applied_sum; cbn [directories total_applied].
  eapply Nat.le_trans; [apply Nat.eq_le_incl, (sum_matches_counts _ _ HF) | apply sum_count_labels, Hnd].
Qed.

Lemma status_report_counts_bounded_witness :
  NoDup (map fst [("0_init", (2, 1))]) /\ report_applied_sum (mk_report 2 [("0_init", (2, 1))]) <= 2.
Proof.
  apply (status_report_counts_bounded fs_stale
           (Demo.connected (mk_db [] (Some [("a.sql", "0_init"); ("old.sql", "0_init")])))
           (snd (status fs_stale (Demo.connected (mk_db [] (Some [("a.sql", "0_init"); ("old.sql", "0_init")])))))
           (mk_report 2 [("0_init", (2, 1))])).
  vm_compute. reflexivity.
Defined.
